(** * scilpy: streamline attribute management (dps / dpp)

    A shallow embedding of [scilpy/tractograms/dps_and_dpp_management.py]:
    the conversion of data_per_streamline into data_per_point, the two
    projections between volumes and streamlines, the reductions of
    data_per_point and the operator registry.

    Numbers.  The arrays of the module hold binary64 values.  They are
    modelled by exact rationals extended with the two infinities and NaN;
    rounding and signed zeros are abstracted away, NaN and the division by
    zero are kept because the module relies on them.  The square root is a
    parameter of the development.

    Effects.  Python exceptions are a [result]; functions that receive the
    tractogram object run in a state-and-exception monad whose state
    survives a raised exception, as the mutated object does in Python.

    Collaborators.  dipy's [StatefulTractogram] and scilpy's [DataVolume]
    are defined outside the module: the tractogram is a record of the
    fields the module reads and writes, its two coordinate conversions are
    parameters, and the volume carries its lookup as a field.  The two
    dictionaries of the tractogram are nibabel's: the lookup of an absent
    key raises [KeyError] when the dictionary holds some entry and returns
    a dictionary without entry when it holds none. *)

From Stdlib Require Import QArith ZArith List Lia String.
From stdpp Require Import gmap strings list fin_maps.

Local Open Scope Z_scope.
Local Open Scope string_scope.
Local Open Scope list_scope.
Local Open Scope stdpp_scope.

(** ** Numbers *)

Inductive fval : Type :=
  | NaN
  | Inf (negative : bool)
  | Num (q : Q).

Definition Qeps : Q := (1 # 1000000)%Q.

Definition Qneg (q : Q) : bool := negb (Qle_bool 0 q).
Definition Qzero (q : Q) : bool := Qeq_bool q 0.

Definition fadd (a b : fval) : fval :=
  match a, b with
  | NaN, _ | _, NaN => NaN
  | Inf s, Inf t => if Bool.eqb s t then Inf s else NaN
  | Inf s, Num _ | Num _, Inf s => Inf s
  | Num x, Num y => Num (x + y)
  end.

Definition fsub (a b : fval) : fval :=
  match a, b with
  | NaN, _ | _, NaN => NaN
  | Inf s, Inf t => if Bool.eqb s t then NaN else Inf s
  | Inf s, Num _ => Inf s
  | Num _, Inf s => Inf (negb s)
  | Num x, Num y => Num (x - y)
  end.

Definition fmul (a b : fval) : fval :=
  match a, b with
  | NaN, _ | _, NaN => NaN
  | Inf s, Inf t => Inf (xorb s t)
  | Inf s, Num y | Num y, Inf s =>
      if Qzero y then NaN else Inf (xorb s (Qneg y))
  | Num x, Num y => Num (x * y)
  end.

Definition fdiv (a b : fval) : fval :=
  match a, b with
  | NaN, _ | _, NaN => NaN
  | Inf _, Inf _ => NaN
  | Inf s, Num y => Inf (xorb s (Qneg y))
  | Num _, Inf _ => Num 0
  | Num x, Num y =>
      if Qzero y then (if Qzero x then NaN else Inf (Qneg x))
      else Num (x / y)
  end.

(** [a <= b] on the numbers that are not NaN. *)
Definition fleb (a b : fval) : bool :=
  match a, b with
  | Inf true, _ => true
  | _, Inf false => true
  | Num x, Num y => Qle_bool x y
  | _, _ => false
  end.

(** [np.maximum] and [np.minimum]: a NaN operand gives NaN. *)
Definition fmax (a b : fval) : fval :=
  match a, b with
  | NaN, _ | _, NaN => NaN
  | _, _ => if fleb a b then b else a
  end.

Definition fmin (a b : fval) : fval :=
  match a, b with
  | NaN, _ | _, NaN => NaN
  | _, _ => if fleb a b then a else b
  end.



(** Equality of two numbers as values (the rationals up to [Qeq]). *)
Definition feqb (a b : fval) : bool :=
  match a, b with
  | NaN, NaN => true
  | Inf s, Inf t => Bool.eqb s t
  | Num x, Num y => Qeq_bool x y
  | _, _ => false
  end.

Definition of_nat (n : nat) : fval := Num (inject_Z (Z.of_nat n)).

(** [ndarray.astype(int)] on one coordinate: truncation toward zero. *)
Definition astype_int (q : Q) : Z := Z.quot (Qnum q) (Zpos (Qden q)).

(** ** Python values: exceptions, indexing *)

Inductive exn : Type :=
  | ValueError (msg : string)
  | KeyError (key : string)
  | IndexError
  | TypeError
  | AxisError.

Inductive result (A : Type) : Type :=
  | Ok (a : A)
  | Raise (e : exn).
Arguments Ok {A} a.
Arguments Raise {A} e.

#[global] Instance result_ret : MRet result := fun A a => Ok a.
#[global] Instance result_bind : MBind result := fun A B f m =>
  match m with
  | Ok a => f a
  | Raise e => Raise e
  end.
#[global] Instance result_fmap : FMap result := fun A B f m =>
  match m with
  | Ok a => Ok (f a)
  | Raise e => Raise e
  end.

(** A computation on a mutable object of type [S]: the object as it is
    left, and what the call returned or raised. *)
Definition M (S A : Type) : Type := S -> S * result A.

#[global] Instance M_ret {S} : MRet (M S) := fun A a s => (s, Ok a).
#[global] Instance M_bind {S} : MBind (M S) := fun A B f m s =>
  match m s with
  | (s', Ok a) => f a s'
  | (s', Raise e) => (s', Raise e)
  end.

Definition get {S} : M S S := fun s => (s, Ok s).
Definition gets {S A} (f : S -> A) : M S A := fun s => (s, Ok (f s)).
Definition modify {S} (f : S -> S) : M S unit := fun s => (f s, Ok tt).
Definition raise {S A} (e : exn) : M S A := fun s => (s, Raise e).
Definition lift {S A} (r : result A) : M S A := fun s => (s, r).

(** [for x in xs: body]: the loop stops at the first exception. *)
Fixpoint for_each {S A} (xs : list A) (body : A -> M S unit) : M S unit :=
  match xs with
  | [] => mret tt
  | x :: rest => _ ← body x; for_each rest body
  end.

(** A loop that appends one value per element to a list. *)
Fixpoint collect {A B} (xs : list A) (body : A -> result B) : result (list B) :=
  match xs with
  | [] => Ok []
  | x :: rest => y ← body x; ys ← collect rest body; Ok (y :: ys)
  end.

Fixpoint collectM {S A B} (xs : list A) (body : A -> M S B) : M S (list B) :=
  match xs with
  | [] => mret []
  | x :: rest => y ← body x; ys ← collectM rest body; mret (y :: ys)
  end.

(** A loop that updates local variables of type [B]. *)
Fixpoint fold_loop {A B} (xs : list A) (body : A -> B -> result B) (acc : B)
    : result B :=
  match xs with
  | [] => Ok acc
  | x :: rest => acc' ← body x acc; fold_loop rest body acc'
  end.

(** [seq[i]] for a Python integer index: negative indices count from the
    end, anything out of range raises [IndexError]. *)
Definition norm_index (n : nat) (i : Z) : result nat :=
  if decide (0 <= i < Z.of_nat n) then Ok (Z.to_nat i)
  else if decide (- Z.of_nat n <= i < 0) then Ok (Z.to_nat (Z.of_nat n + i))
  else Raise IndexError.

Definition py_index {A} (l : list A) (i : Z) : result A :=
  k ← norm_index (length l) i;
  match l !! k with
  | Some x => Ok x
  | None => Raise IndexError
  end.

(** [d[key]] on a dict. *)
Definition dict_get {A} (d : gmap string A) (key : string) : result A :=
  match d !! key with
  | Some x => Ok x
  | None => Raise (KeyError key)
  end.

(** Modelled from the spec: the two dictionaries of the tractogram are
    nibabel's sliceable dictionaries, a class defined outside this module.
    [d[key]] returns the entry of a key that is present.  A key that is
    absent is then tried as an index into every entry: a string is no
    index, so the first entry makes the lookup raise [KeyError]; a
    dictionary that holds no entry has nothing to try and returns a
    dictionary without entry.  The test [key in d] looks at the keys
    only. *)
Inductive looked_up (A : Type) : Type :=
  | Entry (a : A)
  | NoEntries.
Arguments Entry {A} a.
Arguments NoEntries {A}.

Definition sliceable_get {A} (d : gmap string A) (key : string)
    : result (looked_up A) :=
  match d !! key with
  | Some x => Ok (Entry x)
  | None =>
      if decide (size d = 0%nat) then Ok NoEntries
      else Raise (KeyError key)
  end.

(** [for s in obj]: the entry is a sequence; a dictionary without entry
    has no key to go through. *)
Definition entries_in {A} (obj : looked_up (list A)) : list A :=
  match obj with
  | Entry l => l
  | NoEntries => []
  end.

(** [range(n)] as Python integers. *)
Definition range (n : nat) : list Z := map Z.of_nat (seq 0 n).

(** ** NumPy arrays of rank 0, 1 and 2 *)

Inductive ndarray : Type :=
  | A0 (x : fval)
  | A1 (v : list fval)
  | A2 (rows : list (list fval)).

Definition width (rows : list (list fval)) : nat := length (hd [] rows).

Definition shape_of (a : ndarray) : list nat :=
  match a with
  | A0 _ => []
  | A1 v => [length v]
  | A2 rows => [length rows; width rows]
  end.

Definition flat (a : ndarray) : list fval :=
  match a with
  | A0 x => [x]
  | A1 v => v
  | A2 rows => concat rows
  end.

Definition column (j : nat) (rows : list (list fval)) : list fval :=
  map (fun r => nth j r NaN) rows.

Definition np_sum (v : list fval) : fval := foldl fadd (Num 0) v.

Definition np_mean (v : list fval) : fval :=
  fdiv (np_sum v) (of_nat (length v)).

Definition zero_size : exn :=
  ValueError "zero-size array to reduction operation which has no identity".

Definition np_min (v : list fval) : result fval :=
  match v with
  | [] => Raise zero_size
  | x :: rest => Ok (foldl fmin x rest)
  end.

Definition np_max (v : list fval) : result fval :=
  match v with
  | [] => Raise zero_size
  | x :: rest => Ok (foldl fmax x rest)
  end.

(** [np.<reduction>(array, axis=0)]. *)
Definition reduce_axis0 (f : list fval -> result fval) (a : ndarray)
    : result ndarray :=
  match a with
  | A0 _ => Raise AxisError
  | A1 v => x ← f v; Ok (A0 x)
  | A2 rows =>
      v ← collect (seq 0 (width rows)) (fun j => f (column j rows));
      Ok (A1 v)
  end.

(** [np.squeeze]: every axis of length one is removed. *)
Definition squeeze (a : ndarray) : ndarray :=
  match a with
  | A0 x => A0 x
  | A1 [x] => A0 x
  | A1 v => A1 v
  | A2 [[x]] => A0 x
  | A2 [r] => A1 r
  | A2 rows => if decide (width rows = 1%nat) then A1 (concat rows) else A2 rows
  end.

(** [np.concatenate((a, b))] along axis 0. *)
Definition np_concatenate (a b : ndarray) : result ndarray :=
  match a, b with
  | A1 u, A1 v => Ok (A1 (u ++ v))
  | A2 r, A2 s =>
      if decide (r = [] \/ s = [] \/ width r = width s) then Ok (A2 (r ++ s))
      else Raise (ValueError "all the input array dimensions must match")
  | A0 _, _ | _, A0 _ =>
      Raise (ValueError "zero-dimensional arrays cannot be concatenated")
  | _, _ => Raise (ValueError "all the input arrays must have same number of dimensions")
  end.

(** [np.asarray] on the per-point vectors of a streamline.  The vectors
    carry the width of the array; of a streamline without point an empty
    array of rank one is left. *)
Definition np_asarray (s : list (list fval)) : ndarray :=
  match s with
  | [] => A1 []
  | _ => A2 s
  end.

(** [a[i, j]]. *)
Definition getitem2 (a : ndarray) (i j : Z) : result fval :=
  match a with
  | A2 rows => r ← py_index rows i; py_index r j
  | _ => Raise IndexError
  end.

(** [np.ones((n, d))] and the product of an array by a scalar. *)
Definition np_ones (n d : nat) : list (list fval) :=
  replicate n (replicate d (Num 1)).

Definition scale (rows : list (list fval)) (k : fval) : list (list fval) :=
  map (map (fun x => fmul x k)) rows.

Definition no_broadcast : exn := ValueError "could not broadcast input array".

(** The value assigned to a row of [d] entries, after broadcasting. *)
Definition broadcast_row (d : nat) (value : ndarray) : result (list fval) :=
  let vector v :=
    if decide (length v = d) then Ok v
    else match v with
         | [x] => Ok (replicate d x)
         | _ => Raise no_broadcast
         end in
  match value with
  | A0 x => Ok (replicate d x)
  | A1 v => vector v
  | A2 [v] => vector v
  | A2 _ => Raise no_broadcast
  end.

(** [arr[i] = value] on an array of shape (n, d). *)
Definition setitem_row (d : nat) (arr : list (list fval)) (i : Z)
    (value : ndarray) : result (list (list fval)) :=
  k ← norm_index (length arr) i;
  row ← broadcast_row d value;
  Ok (<[k := row]> arr).

Fixpoint chunks (n d : nat) (l : list fval) : list (list fval) :=
  match n with
  | O => []
  | S n' => take d l :: chunks n' d (drop d l)
  end.

Definition no_reshape : exn := ValueError "cannot reshape array".

(** [np.reshape(a, (n, d))] on the entries of [a] in row-major order. *)
Definition reshape2 (entries : list fval) (n d : nat)
    : result (list (list fval)) :=
  if decide (length entries = (n * d)%nat) then Ok (chunks n d entries)
  else Raise no_reshape.

(** The entries of the array NumPy makes of a list of samples; samples of
    different shapes make no numeric array. *)
Definition entries_of_list (samples : list ndarray) : result (list fval) :=
  match samples with
  | [] => Ok []
  | a :: rest =>
      if decide (Forall (fun b => shape_of b = shape_of a) rest)
      then Ok (concat (map flat samples))
      else Raise (ValueError "inhomogeneous shape")
  end.

(** ** The tractogram and the volume *)

Inductive Space : Type := VOX | VOXMM | RASMM.
Inductive Origin : Type := NIFTI | TRACKVIS.

Record point : Type := mk_point { px : Q; py : Q; pz : Q }.

Abbreviation streamline := (list point).

(** The fields of dipy's [StatefulTractogram] the module uses.  A
    data_per_streamline entry holds one vector per streamline, a
    data_per_point entry one vector per point of each streamline. *)
Record StatefulTractogram : Type := mk_sft {
  streamlines : list streamline;
  data_per_streamline : gmap string (list (list fval));
  data_per_point : gmap string (list (list (list fval)));
  space : Space;
  origin : Origin;
  dimensions : nat * nat * nat
}.

(** The invariant of the container on the two dictionaries. *)
Definition dps_valid (sft : StatefulTractogram) : Prop :=
  forall key vals, data_per_streamline sft !! key = Some vals ->
    length vals = length (streamlines sft).

Definition dpp_valid (sft : StatefulTractogram) : Prop :=
  forall key seqs, data_per_point sft !! key = Some seqs ->
    Forall2 (fun s d => length d = length s) (streamlines sft) seqs.

(** Modelled from the spec: the class [DataVolume] is defined in
    [scilpy.image.volume_space_management], outside this module.  What the
    module uses of it is the shape of its data and the lookup
    [get_value_at_coordinate(x, y, z, space, origin)], a read of the volume
    that returns a scalar or a vector, or raises. *)
Record DataVolume : Type := mk_volume {
  data_shape : list nat;
  get_value_at_coordinate : Q -> Q -> Q -> Space -> Origin -> result ndarray
}.

(** A 3D array in row-major order, as [np.zeros(sft.dimensions)] makes it. *)
Record grid : Type := mk_grid {
  g_shape : nat * nat * nat;
  g_data : list fval
}.

Definition grid_size (shape : nat * nat * nat) : nat :=
  let '(nx, ny, nz) := shape in (nx * ny * nz)%nat.

Definition np_zeros (shape : nat * nat * nat) : grid :=
  mk_grid shape (replicate (grid_size shape) (Num 0)).

(** The position of [a[x, y, z]] in the data; each index is checked against
    its axis, negative ones counting from the end. *)
Definition grid_offset (shape : nat * nat * nat) (x y z : Z) : result nat :=
  let '(nx, ny, nz) := shape in
  i ← norm_index nx x;
  j ← norm_index ny y;
  k ← norm_index nz z;
  Ok ((i * ny + j) * nz + k)%nat.

Definition grid_get (g : grid) (x y z : Z) : result fval :=
  o ← grid_offset (g_shape g) x y z;
  match g_data g !! o with
  | Some c => Ok c
  | None => Raise IndexError
  end.

Definition grid_set (g : grid) (x y z : Z) (v : fval) : result grid :=
  o ← grid_offset (g_shape g) x y z;
  Ok (mk_grid (g_shape g) (<[o := v]> (g_data g))).

Definition not_a_scalar : exn :=
  ValueError "setting an array element with a sequence.".

(** [g[x, y, z] = value]: an array is stored in one cell when it has exactly
    one entry. *)
Definition grid_set_array (g : grid) (x y z : Z) (value : list fval)
    : result grid :=
  match value with
  | [v] => grid_set g x y z v
  | _ => Raise not_a_scalar
  end.

(** [np.maximum(g, k)] and [g /= h]. *)
Definition grid_maximum (g : grid) (k : fval) : grid :=
  mk_grid (g_shape g) (map (fun c => fmax c k) (g_data g)).

Definition grid_divide (g h : grid) : grid :=
  mk_grid (g_shape g) (zip_with fdiv (g_data g) (g_data h)).

(** A Python function object: called with the list of its positional
    arguments, it raises [TypeError] when their number is not the one of
    its definition. *)
Abbreviation callable := (list ndarray -> result ndarray).

Definition def1 (f : ndarray -> result ndarray) : callable :=
  fun args => match args with
              | [a] => f a
              | _ => Raise TypeError
              end.

Definition def2 (f : ndarray -> ndarray -> result ndarray) : callable :=
  fun args => match args with
              | [a; b] => f a b
              | _ => Raise TypeError
              end.

Definition set_data_per_point (sft : StatefulTractogram)
    (dpp : gmap string (list (list (list fval)))) : StatefulTractogram :=
  mk_sft (streamlines sft) (data_per_streamline sft) dpp
         (space sft) (origin sft) (dimensions sft).

Definition set_data_per_streamline (sft : StatefulTractogram)
    (dps : gmap string (list (list fval))) : StatefulTractogram :=
  mk_sft (streamlines sft) dps (data_per_point sft)
         (space sft) (origin sft) (dimensions sft).

(** The two objects [project_map_to_streamlines] receives. *)
Abbreviation world := (StatefulTractogram * DataVolume)%type.

(** ** The module *)

Section Engine.

(** [np.sqrt] on the rationals that are not negative. *)
Variable sqrtQ : Q -> Q.

(** Modelled from the spec: [to_vox] and [to_corner] are methods of dipy's
    [StatefulTractogram], a class defined outside this module.  They force
    the tractogram into voxel space and voxel-corner origin, moving every
    point by a map that depends on the convention it leaves; the two
    dictionaries are not touched. *)
Variable vox_of : Space -> point -> point.
Variable corner_of : Space -> Origin -> point -> point.

Definition to_vox (sft : StatefulTractogram) : StatefulTractogram :=
  mk_sft (map (map (vox_of (space sft))) (streamlines sft))
         (data_per_streamline sft) (data_per_point sft)
         VOX (origin sft) (dimensions sft).

Definition to_corner (sft : StatefulTractogram) : StatefulTractogram :=
  mk_sft (map (map (corner_of (space sft) (origin sft))) (streamlines sft))
         (data_per_streamline sft) (data_per_point sft)
         (space sft) TRACKVIS (dimensions sft).

(** *** convert_dps_to_dpp *)

Definition dps_not_found (key : string) : exn :=
  ValueError ("Dps key " ++ key ++ " not found!").

Definition dpp_already_existed (key : string) : exn :=
  ValueError ("Dpp key " ++ key ++ " already existed. Please allow overwriting.").

(** [[[val]*len(s) for val, s in zip(dps, streamlines)]] *)
Definition broadcast_dps (vals : list (list fval)) (strs : list streamline)
    : list (list (list fval)) :=
  zip_with (fun val s => replicate (length s) val) vals strs.

(** The body of the loop over [keys]. *)
Definition convert_key (overwrite : bool) (key : string)
    : M StatefulTractogram unit :=
  sft ← get;
  match data_per_streamline sft !! key with
  | None => raise (dps_not_found key)
  | Some vals =>
      if bool_decide (is_Some (data_per_point sft !! key)) && negb overwrite
      then raise (dpp_already_existed key)
      else
        _ ← modify (fun sft => set_data_per_point sft
               (<[key := broadcast_dps vals (streamlines sft)]>
                  (data_per_point sft)));
        modify (fun sft => set_data_per_streamline sft
               (delete key (data_per_streamline sft)))
  end.

Definition convert_dps_to_dpp (keys : list string) (overwrite : bool)
    : M StatefulTractogram StatefulTractogram :=
  _ ← for_each keys (convert_key overwrite);
  get.

(** *** project_map_to_streamlines *)

Definition value_at (p : point) : M world ndarray :=
  fun w => (w, get_value_at_coordinate (snd w) (px p) (py p) (pz p)
                 (space (fst w)) (origin (fst w))).

Definition channel_count (shape : list nat) : nat :=
  if decide (length shape = 4%nat) then nth 3 shape 0%nat else 1%nat.

Definition project_endpoints (dimension : nat) (s : streamline)
    : M world (list (list fval)) :=
  first ← lift (py_index s 0);
  p1_data ← value_at first;
  last ← lift (py_index s (-1));
  p2_data ← value_at last;
  let thisstreamline_data := scale (np_ones (length s) dimension) NaN in
  thisstreamline_data ← lift (setitem_row dimension thisstreamline_data 0 p1_data);
  thisstreamline_data ← lift (setitem_row dimension thisstreamline_data (-1) p2_data);
  lift (reshape2 (concat thisstreamline_data)
                 (length thisstreamline_data) dimension).

Definition project_all_points (dimension : nat) (s : streamline)
    : M world (list (list fval)) :=
  thisstreamline_data ← collectM s value_at;
  entries ← lift (entries_of_list thisstreamline_data);
  lift (reshape2 entries (length thisstreamline_data) dimension).

Definition project_map_to_streamlines (endpoints_only : bool)
    : M world (list (list (list fval))) :=
  shape ← gets (fun w : world => data_shape (snd w));
  let dimension := channel_count shape in
  strs ← gets (fun w : world => streamlines (fst w));
  if endpoints_only
  then collectM strs (project_endpoints dimension)
  else collectM strs (project_all_points dimension).

(** *** project_dpp_to_map *)

Definition voxel_of (p : point) : Z * Z * Z :=
  (astype_int (px p), astype_int (py p), astype_int (pz p)).

(** [obj[s][p]] on what [sft.data_per_point[dpp_key]] returned: the vector
    of point [p] of streamline [s] in the entry of the key.  A dictionary
    without entry indexed by an integer is again a dictionary without
    entry; NumPy takes it for a sequence of no value. *)
Definition point_value (obj : looked_up (list (list (list fval)))) (s : nat)
    (p : Z) : result (list fval) :=
  match obj with
  | Entry seqs => d ← py_index seqs (Z.of_nat s); py_index d p
  | NoEntries => Ok []
  end.

(** The body of the inner loop, on the local arrays [count] and
    [the_map]. *)
Definition visit (sft : StatefulTractogram) (dpp_key : string) (s : nat)
    (p : Z) (acc : grid * grid) : result (grid * grid) :=
  let '(count, the_map) := acc in
  strm ← py_index (streamlines sft) (Z.of_nat s);
  pt ← py_index strm p;
  let '(x, y, z) := voxel_of pt in
  c ← grid_get count x y z;
  count ← grid_set count x y z (fadd c (Num 1));
  m ← grid_get the_map x y z;
  obj ← sliceable_get (data_per_point sft) dpp_key;
  v ← point_value obj s p;
  the_map ← grid_set_array the_map x y z (map (fadd m) v);
  Ok (count, the_map).

Definition selected_points (endpoints_only : bool) (strm : streamline)
    : list Z :=
  if endpoints_only then [0; -1] else range (length strm).

Definition accumulate (sft : StatefulTractogram) (dpp_key : string)
    (endpoints_only : bool) : result (grid * grid) :=
  fold_loop (seq 0 (length (streamlines sft)))
    (fun s acc =>
       strm ← py_index (streamlines sft) (Z.of_nat s);
       fold_loop (selected_points endpoints_only strm)
                 (visit sft dpp_key s) acc)
    (np_zeros (dimensions sft), np_zeros (dimensions sft)).

Definition project_dpp_to_map (dpp_key : string)
    (sum_lines endpoints_only : bool) : M StatefulTractogram grid :=
  _ ← modify to_vox;
  _ ← modify to_corner;
  sft ← get;
  '(count, the_map) ← lift (accumulate sft dpp_key endpoints_only);
  if negb sum_lines
  then
    let count := grid_maximum count (Num Qeps) in
    mret (grid_divide the_map count)
  else mret the_map.

(** *** The operators *)

Definition stream_mean (array : ndarray) : result ndarray :=
  squeeze <$> reduce_axis0 (fun v => Ok (np_mean v)) array.

Definition stream_sum (array : ndarray) : result ndarray :=
  squeeze <$> reduce_axis0 (fun v => Ok (np_sum v)) array.

Definition stream_min (array : ndarray) : result ndarray :=
  squeeze <$> reduce_axis0 np_min array.

Definition stream_max (array : ndarray) : result ndarray :=
  squeeze <$> reduce_axis0 np_max array.

Definition fsqrt (a : fval) : fval :=
  match a with
  | NaN | Inf true => NaN
  | Inf false => Inf false
  | Num q => if Qneg q then NaN else Num (sqrtQ q)
  end.

Definition rows_of (a : ndarray) : list (list fval) :=
  match a with
  | A0 x => [[x]]
  | A1 v => [v]
  | A2 rows => rows
  end.

Definition dot (u v : list fval) : fval := np_sum (zip_with fmul u v).

(** [np.cov] of the variables held by the rows of [X], with the default
    normalisation by [N - 1], a factor that is not positive counting as
    zero. *)
Definition np_cov (X : list (list fval)) : list (list fval) :=
  let n := width X in
  let fact := if decide (n <= 1)%nat then Num 0 else of_nat (n - 1) in
  let centred :=
    map (fun r => let avg := np_mean r in map (fun x => fsub x avg) r) X in
  map (fun ri =>
         map (fun rj => fmul (dot ri rj) (fdiv (Num 1) fact)) centred)
      centred.

Definition clip (x : fval) : fval := fmin (fmax x (Num (-1))) (Num 1).

(** [np.corrcoef(x, y)]: the covariance matrix of the stacked variables,
    each entry divided by the standard deviations of its row and of its
    column, then clipped to [-1, 1]. *)
Definition np_corrcoef (x y : ndarray) : result ndarray :=
  let X := rows_of x ++ rows_of y in
  if decide (Forall (fun r => length r = width X) X) then
    let c := np_cov X in
    match c with
    | [[v]] => Ok (A0 (fdiv v v))
    | _ =>
        let stddev := imap (fun i r => fsqrt (nth i r NaN)) c in
        Ok (A2 (imap (fun i r =>
                  imap (fun j v =>
                          clip (fdiv (fdiv v (nth i stddev NaN))
                                     (nth j stddev NaN))) r) c))
    end
  else Raise (ValueError "all the input array dimensions must match").

Definition stream_correlation (array1 array2 : ndarray) : result ndarray :=
  np_corrcoef array1 array2.

Definition OPERATIONS : gmap string callable :=
  <["mean" := def1 stream_mean]>
    (<["sum" := def1 stream_sum]>
       (<["min" := def1 stream_min]>
          (<["max" := def1 stream_max]>
             (<["correlation" := def2 stream_correlation]> ∅)))).

(** *** perform_operation_on_dpp *)

Definition operate_on_endpoints (call_op : callable) (s : list (list fval))
    : result (list (list fval)) :=
  let this_data_per_point := scale (np_ones (length s) 1) NaN in
  first ← py_index s 0;
  v ← call_op [A1 first];
  this_data_per_point ← setitem_row 1 this_data_per_point 0 v;
  last ← py_index s (-1);
  v ← call_op [A1 last];
  this_data_per_point ← setitem_row 1 this_data_per_point (-1) v;
  reshape2 (concat this_data_per_point) (length this_data_per_point) 1.

Definition operate_on_points (call_op : callable) (s : list (list fval))
    : result (list (list fval)) :=
  this_data_per_point ← collect s (fun p => call_op [A1 p]);
  entries ← entries_of_list this_data_per_point;
  reshape2 entries (length this_data_per_point) 1.

Definition perform_operation_on_dpp (op_name : string) (dpp_name : string)
    (endpoints_only : bool)
    : M StatefulTractogram (list (list (list fval))) :=
  call_op ← lift (dict_get OPERATIONS op_name);
  dpp ← gets data_per_point;
  obj ← lift (sliceable_get dpp dpp_name);
  if endpoints_only
  then lift (collect (entries_in obj) (operate_on_endpoints call_op))
  else lift (collect (entries_in obj) (operate_on_points call_op)).

(** *** perform_operation_dpp_to_dps *)

Definition reduce_endpoints (call_op : callable) (s : list (list fval))
    : result ndarray :=
  start ← py_index s 0;
  end_ ← py_index s (-1);
  concat ← np_concatenate (A1 start) (A1 end_);
  call_op [concat].

Definition reduce_points (call_op : callable) (s : list (list fval))
    : result ndarray :=
  let s_np := np_asarray s in
  call_op [s_np].

Definition perform_operation_dpp_to_dps (op_name : string)
    (dpp_name : string) (endpoints_only : bool)
    : M StatefulTractogram (list ndarray) :=
  call_op ← lift (dict_get OPERATIONS op_name);
  dpp ← gets data_per_point;
  obj ← lift (sliceable_get dpp dpp_name);
  if endpoints_only
  then lift (collect (entries_in obj) (reduce_endpoints call_op))
  else lift (collect (entries_in obj) (reduce_points call_op)).

(** *** perform_pairwise_streamline_operation_on_endpoints *)

(** The two steps of [call_op(s[0], s[-1])[0, 1]]. *)
Definition call_on_endpoints (call_op : callable) (s : list (list fval))
    : result ndarray :=
  first ← py_index s 0;
  last ← py_index s (-1);
  call_op [A1 first; A1 last].

Definition pairwise_on_endpoints (call_op : callable) (s : list (list fval))
    : result fval :=
  r ← call_on_endpoints call_op s;
  getitem2 r 0 1.

Definition perform_pairwise_streamline_operation_on_endpoints
    (op_name : string) (dpp_name : string)
    : M StatefulTractogram (list fval) :=
  call_op ← lift (dict_get OPERATIONS op_name);
  dpp ← gets data_per_point;
  obj ← lift (sliceable_get dpp dpp_name);
  lift (collect (entries_in obj) (pairwise_on_endpoints call_op)).

(** ** Properties of the calls *)

(** What [convert_dps_to_dpp(T, [key])] is to establish, [T'] being the
    tractogram after the call: [key] has left data_per_streamline, and
    data_per_point holds under [key], for every streamline, as many values
    as the streamline has points, each of them the value the streamline had
    in data_per_streamline. *)
Definition converted (T : StatefulTractogram) (key : string)
    (T' : StatefulTractogram) : Prop :=
  exists vals seqs,
    data_per_streamline T !! key = Some vals /\
    data_per_point T' !! key = Some seqs /\
    data_per_streamline T' !! key = None /\
    forall i s, streamlines T' !! i = Some s ->
      exists val d,
        vals !! i = Some val /\ seqs !! i = Some d /\
        length d = length s /\
        forall j x, d !! j = Some x -> x = val.

(** Keys validated before any mutation: a listed key that is absent from
    data_per_streamline makes the call raise the missing-key error on an
    untouched tractogram. *)
Definition validates_up_front (T : StatefulTractogram) (keys : list string)
    (overwrite : bool) : Prop :=
  (exists key, key ∈ keys /\ data_per_streamline T !! key = None) ->
  exists key, convert_dps_to_dpp keys overwrite T = (T, Raise (dps_not_found key)).

(** ** Sample data *)

Definition pt (x y z : Z) : point :=
  mk_point (inject_Z x) (inject_Z y) (inject_Z z).

Definition num (z : Z) : fval := Num (inject_Z z).

(** Two streamlines of 3 and 5 points; the data_per_streamline key "len"
    holds their lengths. *)
Definition two_streamlines : list streamline :=
  [ [pt 0 0 0; pt 1 0 0; pt 2 0 0];
    [pt 0 1 0; pt 1 1 0; pt 2 1 0; pt 3 1 0; pt 3 2 0] ].

Definition sft_len : StatefulTractogram :=
  mk_sft two_streamlines {[ "len" := [[num 3]; [num 5]] ]} ∅
         VOX TRACKVIS (4, 4, 4)%nat.

(** What the conversion of "len" makes of it. *)
Definition sft_len_converted : StatefulTractogram :=
  mk_sft two_streamlines ∅
         {[ "len" := [ [[num 3]; [num 3]; [num 3]];
                       [[num 5]; [num 5]; [num 5]; [num 5]; [num 5]] ] ]}
         VOX TRACKVIS (4, 4, 4)%nat.

(** The same tractogram with a data_per_point entry already named "len". *)
Definition sft_len_taken : StatefulTractogram :=
  set_data_per_point sft_len
    {[ "len" := [ replicate 3 [num 0]; replicate 5 [num 0] ] ]}.

(** A computation that leaves its object as it found it. *)
Definition reads_only {S A} (m : M S A) : Prop := forall s, fst (m s) = s.

(** The volume answers at point [p] with a value that fits a row of [d]
    channels, [row] being that value once broadcast. *)
Definition volume_answers (w : world) (d : nat) (p : point)
    (row : list fval) : Prop :=
  exists a,
    get_value_at_coordinate (snd w) (px p) (py p) (pz p)
      (space (fst w)) (origin (fst w)) = Ok a /\
    broadcast_row d a = Ok row.






(** A volume of one channel whose value at a point is the sum of the
    coordinates, and a volume of two channels. *)
Definition volume_3d : DataVolume :=
  mk_volume [4; 4; 4]%nat (fun x y z _ _ => Ok (A0 (Num (x + y + z)))).

Definition volume_4d : DataVolume :=
  mk_volume [4; 4; 4; 2]%nat (fun x y z _ _ => Ok (A1 [Num x; Num (y + z)])).

(** The cell of a 3D array that the point [p] of streamline [s] falls in,
    when there is one. *)
Definition point_offset (sft : StatefulTractogram) (s : nat) (p : Z)
    : option nat :=
  match py_index (streamlines sft) (Z.of_nat s) with
  | Ok strm =>
      match py_index strm p with
      | Ok pt =>
          let '(x, y, z) := voxel_of pt in
          match grid_offset (dimensions sft) x y z with
          | Ok o => Some o
          | Raise _ => None
          end
      | Raise _ => None
      end
  | Raise _ => None
  end.

(** The points the loops of [project_dpp_to_map] select, in the order they
    are visited: streamline index and point index. *)
Definition selected (sft : StatefulTractogram) (endpoints_only : bool)
    : list (nat * Z) :=
  flat_map (fun s => map (pair s)
              (selected_points endpoints_only
                 (default [] (streamlines sft !! s))))
           (seq 0 (length (streamlines sft))).

(** The cells visited, one entry per selected point. *)
Definition visited_voxels (sft : StatefulTractogram) (endpoints_only : bool)
    : list nat :=
  omap (fun sp => point_offset sft sp.1 sp.2) (selected sft endpoints_only).

(** The streamline points the loops select, each point listed once however
    often it is selected: streamline index and position in the
    streamline. *)
Definition selected_positions (sft : StatefulTractogram)
    (endpoints_only : bool) : list (nat * nat) :=
  remove_dups
    (omap (fun sp : nat * Z =>
             match norm_index (length (default [] (streamlines sft !! sp.1)))
                              sp.2 with
             | Ok k => Some (sp.1, k)
             | Raise _ => None
             end)
          (selected sft endpoints_only)).

(** Every cell of the grid holds at most one of the selected streamline
    points. *)
Definition one_point_per_voxel (sft : StatefulTractogram)
    (endpoints_only : bool) : Prop :=
  NoDup (omap (fun sk : nat * nat => point_offset sft sk.1 (Z.of_nat sk.2))
              (selected_positions sft endpoints_only)).

(** The counter of a cell after [k] visits. *)
Definition counted (k : nat) : fval :=
  Nat.iter k (fun c => fadd c (Num 1)) (Num 0).

(** The local arrays [count] and [the_map] after the cells [seen] have been
    visited: each counter holds the number of visits of its cell, and a
    cell never visited still holds the zero of [np.zeros]. *)
Definition accumulated (shape : nat * nat * nat) (seen : list nat)
    (acc : grid * grid) : Prop :=
  g_shape acc.1 = shape /\ g_shape acc.2 = shape /\
  length (g_data acc.1) = grid_size shape /\
  length (g_data acc.2) = grid_size shape /\
  forall o, (o < grid_size shape)%nat ->
    g_data acc.1 !! o = Some (counted (count_occ Nat.eq_dec seen o)) /\
    (o ∉ seen -> g_data acc.2 !! o = Some (Num 0)).

(** A tractogram in voxel space with one data_per_point value per point. *)
Definition sft_metric : StatefulTractogram :=
  mk_sft two_streamlines ∅
    {[ "metric" := [ [[num 1]; [num 2]; [num 3]];
                     [[num 4]; [num 5]; [num 6]; [num 7]; [num 8]] ] ]}
    VOX NIFTI (4, 4, 4)%nat.

(** A tractogram without streamlines, in world space. *)
Definition sft_empty : StatefulTractogram :=
  mk_sft [] ∅ ∅ RASMM NIFTI (2, 2, 2)%nat.

(** Sample coordinate maps: the points are taken as they are. *)
Definition keep_point (_ : Space) (p : point) : point := p.
Definition keep_origin (_ : Space) (_ : Origin) (p : point) : point := p.

(** A square root for the samples: exact on the squares of rationals. *)
Definition sqrt_floor (q : Q) : Q := Z.sqrt (Qnum q) # Pos.sqrt (Qden q).

(** With at most one selected streamline point per cell, the two settings
    of [sum_lines] give the same outcome. *)
Definition sum_lines_indifferent (dpp_key : string) (endpoints_only : bool)
    (sft : StatefulTractogram) : Prop :=
  one_point_per_voxel (to_corner (to_vox sft)) endpoints_only ->
  project_dpp_to_map dpp_key false endpoints_only sft
  = project_dpp_to_map dpp_key true endpoints_only sft.

(** An absent data_per_point key always surfaces as a missing-key error. *)
Definition raises_missing_key (dpp_key : string)
    (sum_lines endpoints_only : bool) (sft : StatefulTractogram) : Prop :=
  data_per_point sft !! dpp_key = None ->
  exists sft',
    project_dpp_to_map dpp_key sum_lines endpoints_only sft
      = (sft', Raise (KeyError dpp_key)).

(** Equality of two arrays as values. *)
Definition feq (a b : fval) : Prop := feqb a b = true.

Fixpoint all2 {A} (eqb : A -> A -> bool) (u v : list A) : bool :=
  match u, v with
  | [], [] => true
  | a :: u', b :: v' => eqb a b && all2 eqb u' v'
  | _, _ => false
  end.

Definition aeqb (a b : ndarray) : bool :=
  match a, b with
  | A0 x, A0 y => feqb x y
  | A1 u, A1 v => all2 feqb u v
  | A2 r, A2 s => all2 (all2 feqb) r s
  | _, _ => false
  end.

(** The four reductions of the registry, by name. *)
Definition reducers : list (string * (list fval -> result fval)) :=
  [ ("mean", fun v => Ok (np_mean v));
    ("sum", fun v => Ok (np_sum v));
    ("min", np_min);
    ("max", np_max) ].

(** A reduction that answers on every sequence that is not empty. *)
Definition total_on_values (f : list fval -> result fval) : Prop :=
  forall v, v <> [] -> exists x, f v = Ok x.

(** The Pearson correlation coefficient of two sequences: their covariance
    over the product of their standard deviations. *)
Definition centre (v : list fval) : list fval :=
  map (fun x => fsub x (np_mean v)) v.

Definition covariance (u v : list fval) : fval :=
  fmul (dot (centre u) (centre v))
       (fdiv (Num 1)
             (if decide (length u <= 1)%nat then Num 0
              else of_nat (length u - 1))).

Definition pearson (u v : list fval) : fval :=
  clip (fdiv (fdiv (covariance u v) (fsqrt (covariance u u)))
             (fsqrt (covariance v v))).

(** The first and the last per-point vector of a streamline, joined. *)
Definition endpoints_concat (s : list (list fval)) : list fval :=
  default [] (head s) ++ default [] (last s).


(** A reduction over a single row returns a scalar. *)
Definition single_row_gives_scalar (op_name : string) : Prop :=
  forall call_op row,
    OPERATIONS !! op_name = Some call_op ->
    exists x, call_op [A2 [row]] = Ok (A0 x).

(** One streamline of four points with the values 1, 2, 3, 10. *)
Definition sft_skewed : StatefulTractogram :=
  mk_sft [ [pt 0 0 0; pt 1 0 0; pt 2 0 0; pt 3 0 0] ] ∅
    {[ "metric" := [ [[num 1]; [num 2]; [num 3]; [num 10]] ] ]}
    VOX TRACKVIS (4, 4, 4)%nat.

(** One streamline whose per-point vectors have three entries. *)
Definition sft_vectors : StatefulTractogram :=
  mk_sft [ [pt 0 0 0; pt 1 0 0; pt 2 0 0] ] ∅
    {[ "metric" := [ [[num 1; num 2; num 3]; [num 0; num 0; num 0];
                      [num 1; num 2; num 3]] ] ]}
    VOX TRACKVIS (4, 4, 4)%nat.

(** ** Further properties *)

(** The tractogram once [key], of values [vals], has been converted. *)
Definition moved (T : StatefulTractogram) (key : string)
    (vals : list (list fval)) : StatefulTractogram :=
  mk_sft (streamlines T)
         (delete key (data_per_streamline T))
         (<[key := broadcast_dps vals (streamlines T)]> (data_per_point T))
         (space T) (origin T) (dimensions T).

(** What a call leaves alone: the geometry, the conventions, and the
    entries of the keys that are not listed. *)
Definition same_outside (keys : list string) (T T' : StatefulTractogram)
    : Prop :=
  streamlines T' = streamlines T /\ space T' = space T /\
  origin T' = origin T /\ dimensions T' = dimensions T /\
  forall k, k ∉ keys ->
    data_per_streamline T' !! k = data_per_streamline T !! k /\
    data_per_point T' !! k = data_per_point T !! k.

(** A reduction that gives back the value all the rows share. *)
Definition keeps_constant (f : list fval -> result fval) : Prop :=
  forall n x, f (replicate (S n) x) = Ok x.

(** The value [a] the volume gives for one point fills the row [row] of [d]
    channels as it is: a scalar for a volume of one channel, or a vector of
    [d] entries. *)
Definition fits (scalar : bool) (d : nat) (a : ndarray) (row : list fval)
    : Prop :=
  if scalar then exists x, a = A0 x /\ row = [x] /\ d = 1%nat
  else a = A1 row /\ length row = d.

Definition point_sampled (w : world) (scalar : bool) (d : nat) (p : point)
    (row : list fval) : Prop :=
  exists a,
    get_value_at_coordinate (snd w) (px p) (py p) (pz p)
      (space (fst w)) (origin (fst w)) = Ok a /\
    fits scalar d a row.

(** [out] holds, for every point of every streamline, the value of the
    volume at that point. *)
Definition sampled_everywhere (w : world) (scalar : bool) (d : nat)
    (out : list (list (list fval))) : Prop :=
  Forall2 (Forall2 (point_sampled w scalar d)) (streamlines (fst w)) out.

(** The array [arr] of the endpoints-only mode against the array [full] of
    the other mode, for one streamline. *)
Definition agrees_at_endpoints (d : nat) (full arr : list (list fval))
    : Prop :=
  length arr = length full /\
  arr !! 0%nat = full !! 0%nat /\
  last arr = last full /\
  (forall j, (0 < j < length full - 1)%nat ->
     arr !! j = Some (replicate d NaN)) /\
  ((length full <= 2)%nat -> arr = full).

(** The scalar that point [p] of streamline [s] carries under [dpp_key],
    when it carries exactly one. *)
Definition dpp_value (sft : StatefulTractogram) (dpp_key : string) (s : nat)
    (p : Z) : option fval :=
  match dict_get (data_per_point sft) dpp_key with
  | Ok seqs =>
      match py_index seqs (Z.of_nat s) with
      | Ok d =>
          match py_index d p with
          | Ok [v] => Some v
          | _ => None
          end
      | Raise _ => None
      end
  | Raise _ => None
  end.

(** [log] lists, for the selected points in the order of the loops, the
    cell each point falls in and the value it carries. *)
Definition recorded (sft : StatefulTractogram) (dpp_key : string)
    (endpoints_only : bool) (log : list (nat * fval)) : Prop :=
  Forall2 (fun (sp : nat * Z) (ov : nat * fval) =>
             point_offset sft sp.1 sp.2 = Some ov.1 /\
             dpp_value sft dpp_key sp.1 sp.2 = Some ov.2)
          (selected sft endpoints_only) log.

(** The values that fell in cell [o], in the order of the visits. *)
Definition cell_values (log : list (nat * fval)) (o : nat) : list fval :=
  map snd (filter (fun ov => ov.1 = o) log).

(** The mean of the values of a cell, zero for a cell without value. *)
Definition cell_mean (vals : list fval) : fval :=
  match vals with
  | [] => Num 0
  | _ => np_mean vals
  end.

Definition grid_of (shape : nat * nat * nat) (f : nat -> fval) : grid :=
  mk_grid shape (map f (seq 0 (grid_size shape))).

(** The local arrays after the visits of [log]. *)
Definition summed (shape : nat * nat * nat) (log : list (nat * fval))
    (acc : grid * grid) : Prop :=
  acc.1 = grid_of shape (fun o => of_nat (length (cell_values log o))) /\
  acc.2 = grid_of shape (fun o => np_sum (cell_values log o)).



(** The map that holds [x] in cell [o] and zero elsewhere. *)
Definition one_cell (shape : nat * nat * nat) (o : nat) (x : fval) : grid :=
  grid_of shape (fun o' => if decide (o' = o) then x else Num 0).

(** The five names of the registry. *)
Definition operator_names : list string :=
  ["mean"; "sum"; "min"; "max"; "correlation"].

(** The three functions that take an operator name, as one list of outcomes
    (the returned values dropped). *)
Definition perform_outcomes (op_name dpp_name : string)
    (endpoints_only : bool) (sft : StatefulTractogram)
    : list (StatefulTractogram * result unit) :=
  let outcome {A} (r : StatefulTractogram * result A) :=
    (r.1, (fun _ => tt) <$> r.2) in
  [ outcome (perform_operation_on_dpp op_name dpp_name endpoints_only sft);
    outcome (perform_operation_dpp_to_dps op_name dpp_name endpoints_only sft);
    outcome (perform_pairwise_streamline_operation_on_endpoints
               op_name dpp_name sft) ].

(** [row] is the one-entry row that holds the reduction of the vector [p]. *)
Definition reduced_row (f : list fval -> result fval) (p row : list fval)
    : Prop :=
  exists x, f p = Ok x /\ row = [x].

(** A correlation coefficient as NumPy returns it: NaN, or within
    [-1, 1]. *)
Definition coefficient (x : fval) : Prop :=
  x = NaN \/ exists q, x = Num q /\ (-1 <= q <= 1)%Q.

(** The reduction of the rows of [s], column by column, squeezed. *)
Definition reduced_columns (f : list fval -> result fval) (d : nat)
    (s : list (list fval)) (r : ndarray) : Prop :=
  exists v,
    Forall2 (fun j x => f (column j s) = Ok x) (seq 0 d) v /\
    r = squeeze (A1 v).

(** ** Further sample data *)

(** The two sample streamlines with two data_per_streamline keys. *)
Definition sft_two_keys : StatefulTractogram :=
  mk_sft two_streamlines
         {[ "len" := [[num 3]; [num 5]]; "side" := [[num 0]; [num 1]] ]} ∅
         VOX TRACKVIS (4, 4, 4)%nat.

(** Three streamlines, the second without point. *)
Definition sft_gap : StatefulTractogram :=
  mk_sft [ [pt 0 0 0; pt 1 0 0]; []; [pt 1 1 1] ] ∅ ∅
         VOX TRACKVIS (4, 4, 4)%nat.

(** One streamline of one point, with one value. *)
Definition sft_single_point : StatefulTractogram :=
  mk_sft [ [pt 1 1 1] ] ∅ {[ "metric" := [ [[num 5]] ] ]}
         VOX TRACKVIS (2, 2, 2)%nat.




(** The cells and values of the eight points of [sft_metric]. *)
Definition log_metric : list (nat * fval) :=
  [ (0, num 1); (16, num 2); (32, num 3);
    (4, num 4); (20, num 5); (36, num 6); (52, num 7); (56, num 8) ]%nat.

(** What the volume of two channels holds at the points of the two sample
    streamlines. *)
Definition two_channels : list (list (list fval)) :=
  map (map (fun p : point => [Num (px p); Num (py p + pz p)]))
      two_streamlines.

(** A streamline without point before a streamline of one point. *)
Definition sft_hollow : StatefulTractogram :=
  mk_sft [ []; [pt 1 1 1] ] ∅ {[ "metric" := [ []; [[num 1]] ] ]}
         VOX TRACKVIS (2, 2, 2)%nat.

(** ** The monad and the loops *)

Lemma sliceable_get_entry {A} (d : gmap string A) (key : string) (x : A) :
  d !! key = Some x -> sliceable_get d key = Ok (Entry x).
Proof. unfold sliceable_get. by intros ->. Qed.

Lemma sliceable_get_missing {A} (d : gmap string A) (key : string) :
  d !! key = None -> d <> ∅ -> sliceable_get d key = Raise (KeyError key).
Proof.
  unfold sliceable_get. intros -> Hd.
  rewrite decide_False; [done|]. by rewrite map_size_empty_iff.
Qed.

Lemma sliceable_get_empty {A} (d : gmap string A) (key : string) :
  d = ∅ -> sliceable_get d key = Ok NoEntries.
Proof. intros ->. unfold sliceable_get. by rewrite lookup_empty. Qed.

Lemma for_each_app {S A} (xs ys : list A) (body : A -> M S unit) (s : S) :
  for_each (xs ++ ys) body s =
  match for_each xs body s with
  | (s', Ok _) => for_each ys body s'
  | (s', Raise e) => (s', Raise e)
  end.
Proof.
  revert s. induction xs as [|x xs IH]; intros s; simpl; [done|].
  unfold mbind, M_bind. destruct (body x s) as [s1 [[]|e]]; [|done].
  apply IH.
Qed.

Lemma convert_dps_to_dpp_run keys overwrite T :
  convert_dps_to_dpp keys overwrite T =
  match for_each keys (convert_key overwrite) T with
  | (T', Ok _) => (T', Ok T')
  | (T', Raise e) => (T', Raise e)
  end.
Proof. reflexivity. Qed.

Lemma convert_dps_to_dpp_ok keys overwrite T T1 r :
  convert_dps_to_dpp keys overwrite T = (T1, Ok r) ->
  for_each keys (convert_key overwrite) T = (T1, Ok tt).
Proof.
  rewrite convert_dps_to_dpp_run.
  destruct (for_each keys (convert_key overwrite) T) as [T' [[]|e]];
    intros [= <- _]; done.
Qed.

(** *** One turn of the loop of [convert_dps_to_dpp] *)

Lemma convert_key_missing overwrite key T :
  data_per_streamline T !! key = None ->
  convert_key overwrite key T = (T, Raise (dps_not_found key)).
Proof. intros H. unfold convert_key, mbind, M_bind, get. simpl. by rewrite H. Qed.

Lemma convert_key_collision key T vals old :
  data_per_streamline T !! key = Some vals ->
  data_per_point T !! key = Some old ->
  convert_key false key T = (T, Raise (dpp_already_existed key)).
Proof.
  intros Hs Hp. unfold convert_key, mbind, M_bind, get. simpl.
  rewrite Hs, Hp. rewrite bool_decide_eq_true_2 by eauto. done.
Qed.

Lemma convert_key_moves overwrite key T vals :
  data_per_streamline T !! key = Some vals ->
  data_per_point T !! key = None \/ overwrite = true ->
  convert_key overwrite key T =
    (mk_sft (streamlines T)
            (delete key (data_per_streamline T))
            (<[key := broadcast_dps vals (streamlines T)]> (data_per_point T))
            (space T) (origin T) (dimensions T),
     Ok tt).
Proof.
  intros Hs Hfree. unfold convert_key, mbind, M_bind, get. simpl. rewrite Hs.
  destruct Hfree as [Hp | ->].
  - rewrite Hp. rewrite bool_decide_eq_false_2 by (intros [? ?]; done). done.
  - rewrite andb_false_r. done.
Qed.

Lemma broadcast_dps_lookup vals strs i val s :
  vals !! i = Some val -> strs !! i = Some s ->
  broadcast_dps vals strs !! i = Some (replicate (length s) val).
Proof.
  intros Hv Hs. unfold broadcast_dps.
  rewrite lookup_zip_with, Hv. simpl. by rewrite Hs.
Qed.

Lemma converted_by_move key T vals :
  dps_valid T ->
  data_per_streamline T !! key = Some vals ->
  converted T key
    (mk_sft (streamlines T)
            (delete key (data_per_streamline T))
            (<[key := broadcast_dps vals (streamlines T)]> (data_per_point T))
            (space T) (origin T) (dimensions T)).
Proof.
  intros Hvalid Hs. exists vals, (broadcast_dps vals (streamlines T)). simpl.
  split; [done|]. split; [apply lookup_insert_eq|].
  split; [apply lookup_delete_eq|].
  intros i s Hi.
  assert (Hlen : (i < length vals)%nat).
  { rewrite (Hvalid key vals Hs). by eapply lookup_lt_Some. }
  destruct (lookup_lt_is_Some_2 vals i Hlen) as [val Hval].
  exists val, (replicate (length s) val).
  split; [done|]. split; [by apply broadcast_dps_lookup|].
  split; [apply length_replicate|].
  intros j x Hj. by apply lookup_replicate in Hj as [-> _].
Qed.

(** *** The claims on [convert_dps_to_dpp] *)

(** C1 (amended).  For every tractogram [T] and every key present in
    data_per_streamline that is not yet a data_per_point key (or with the
    overwrite flag set), [convert_dps_to_dpp(T, [key])] returns the
    tractogram it was given, in which [key] is a data_per_point key holding
    for every streamline as many values as it has points, each equal to the
    value the streamline had in data_per_streamline, and from whose
    data_per_streamline [key] is gone; the streamlines are unchanged. *)
Theorem convert_dps_to_dpp_broadcasts (T : StatefulTractogram) (key : string)
    (overwrite : bool) :
  dps_valid T ->
  is_Some (data_per_streamline T !! key) ->
  data_per_point T !! key = None \/ overwrite = true ->
  exists T',
    convert_dps_to_dpp [key] overwrite T = (T', Ok T') /\
    converted T key T' /\
    streamlines T' = streamlines T.
Proof.
  intros Hvalid [vals Hs] Hfree.
  eexists. rewrite convert_dps_to_dpp_run. simpl.
  unfold mbind at 1, M_bind at 1.
  rewrite (convert_key_moves overwrite key T vals Hs Hfree). simpl.
  split; [reflexivity|]. split; [by apply converted_by_move|done].
Qed.

(** C2 (amended).  The keys are checked one at a time, inside the loop.
    When the keys listed before [key] have been converted, leaving the
    tractogram [T1], and [key] is then absent from data_per_streamline, the
    call raises the missing-key error for [key] and leaves the tractogram
    as [T1]: the earlier keys stay converted, the later ones are not
    looked at.  The tractogram is unmodified when the absent key comes
    first, as in [convert_dps_to_dpp(sft, ['missing_key'])]. *)
Theorem convert_dps_to_dpp_missing_key (overwrite : bool) :
  (forall (pre rest : list string) (key : string) (T T1 : StatefulTractogram),
     convert_dps_to_dpp pre overwrite T = (T1, Ok T1) ->
     data_per_streamline T1 !! key = None ->
     convert_dps_to_dpp (pre ++ key :: rest) overwrite T
       = (T1, Raise (dps_not_found key)))
  /\
  (forall (rest : list string) (key : string) (T : StatefulTractogram),
     data_per_streamline T !! key = None ->
     convert_dps_to_dpp (key :: rest) overwrite T
       = (T, Raise (dps_not_found key))).
Proof.
  assert (Hgen : forall pre rest key T T1,
    convert_dps_to_dpp pre overwrite T = (T1, Ok T1) ->
    data_per_streamline T1 !! key = None ->
    convert_dps_to_dpp (pre ++ key :: rest) overwrite T
      = (T1, Raise (dps_not_found key))).
  { intros pre rest key T T1 Hpre Hmiss.
    apply convert_dps_to_dpp_ok in Hpre.
    rewrite convert_dps_to_dpp_run, for_each_app, Hpre. simpl.
    unfold mbind at 1, M_bind at 1.
    by rewrite (convert_key_missing overwrite key T1 Hmiss). }
  split; [exact Hgen|].
  intros rest key T Hmiss. by apply (Hgen [] rest key T T).
Qed.

(** C7.  A key that is in data_per_streamline and already in data_per_point
    when the loop reaches it: without the overwrite flag the call raises
    the key-collision error at that key; with the flag the key is converted
    without error: its data_per_point entry is replaced by the broadcast
    per-streamline values (for every streamline as many values as it has
    points, each the value the streamline had in data_per_streamline) and
    the key is removed from data_per_streamline. *)
Theorem convert_dps_to_dpp_collision (pre rest : list string) (key : string)
    (T T1 : StatefulTractogram) (vals : list (list fval))
    (old : list (list (list fval))) :
  data_per_streamline T1 !! key = Some vals ->
  data_per_point T1 !! key = Some old ->
  (convert_dps_to_dpp pre false T = (T1, Ok T1) ->
   convert_dps_to_dpp (pre ++ key :: rest) false T
     = (T1, Raise (dpp_already_existed key)))
  /\
  (convert_dps_to_dpp pre true T = (T1, Ok T1) ->
   dps_valid T1 ->
   exists T2,
     convert_dps_to_dpp (pre ++ [key]) true T = (T2, Ok T2) /\
     converted T1 key T2 /\
     streamlines T2 = streamlines T1).
Proof.
  intros Hs Hp. split; intros Hpre; apply convert_dps_to_dpp_ok in Hpre.
  - rewrite convert_dps_to_dpp_run, for_each_app, Hpre. simpl.
    unfold mbind at 1, M_bind at 1.
    by rewrite (convert_key_collision key T1 vals old Hs Hp).
  - intros Hvalid.
    eexists. rewrite convert_dps_to_dpp_run, for_each_app, Hpre. simpl.
    unfold mbind at 1, M_bind at 1.
    rewrite (convert_key_moves true key T1 vals Hs) by (by right). simpl.
    split; [reflexivity|]. split; [|reflexivity].
    by apply converted_by_move.
Qed.

(** *** Indexing and reshaping *)

Lemma norm_index_nonneg (n k : nat) :
  (k < n)%nat -> norm_index n (Z.of_nat k) = Ok k.
Proof.
  intros H. unfold norm_index. rewrite decide_True by lia.
  by rewrite Nat2Z.id.
Qed.

Lemma norm_index_minus_one (n : nat) :
  (0 < n)%nat -> norm_index n (-1) = Ok (n - 1)%nat.
Proof.
  intros H. unfold norm_index. rewrite decide_False by lia.
  rewrite decide_True by lia. f_equal. lia.
Qed.

Lemma py_index_lookup {A} (l : list A) (k : nat) (x : A) :
  l !! k = Some x -> py_index l (Z.of_nat k) = Ok x.
Proof.
  intros H. unfold py_index.
  rewrite norm_index_nonneg by (by eapply lookup_lt_Some). simpl. by rewrite H.
Qed.

Lemma py_index_last {A} (l : list A) (x : A) :
  last l = Some x -> py_index l (-1) = Ok x.
Proof.
  intros H. unfold py_index.
  assert (0 < length l)%nat by (destruct l; [done|simpl; lia]).
  rewrite norm_index_minus_one by done. simpl.
  rewrite last_lookup in H. replace (length l - 1)%nat with (pred (length l)) by lia.
  by rewrite H.
Qed.

Lemma py_index_empty {A} (i : Z) : py_index (@nil A) i = Raise IndexError.
Proof.
  unfold py_index, norm_index. simpl.
  rewrite decide_False by lia. by rewrite decide_False by lia.
Qed.

Lemma scale_ones_nan (n d : nat) :
  scale (np_ones n d) NaN = replicate n (replicate d NaN).
Proof.
  unfold scale, np_ones. rewrite fmap_replicate. f_equal.
  by rewrite fmap_replicate.
Qed.

Lemma chunks_concat (d : nat) (arr : list (list fval)) :
  Forall (fun r => length r = d) arr ->
  chunks (length arr) d (concat arr) = arr.
Proof.
  induction 1 as [|r arr Hr _ IH]; simpl; [done|].
  rewrite take_app_length' by done. rewrite drop_app_length' by done.
  by rewrite IH.
Qed.

Lemma length_concat_rows (d : nat) (arr : list (list fval)) :
  Forall (fun r => length r = d) arr ->
  length (concat arr) = (length arr * d)%nat.
Proof.
  induction 1 as [|r arr Hr _ IH]; simpl; [done|].
  rewrite length_app, IH, Hr. lia.
Qed.

Lemma reshape2_rows (d : nat) (arr : list (list fval)) :
  Forall (fun r => length r = d) arr ->
  reshape2 (concat arr) (length arr) d = Ok arr.
Proof.
  intros H. unfold reshape2.
  rewrite decide_True by (by apply length_concat_rows).
  by rewrite chunks_concat.
Qed.

Lemma broadcast_row_length (d : nat) (a : ndarray) (row : list fval) :
  broadcast_row d a = Ok row -> length row = d.
Proof.
  assert (Hvec : forall v,
    (if decide (length v = d) then Ok v
     else match v with
          | [x] => Ok (replicate d x)
          | _ => Raise no_broadcast
          end) = Ok row -> length row = d).
  { intros v. case_decide as Hv.
    - by intros [= <-].
    - destruct v as [|x [|y v]]; try done. intros [= <-]. apply length_replicate. }
  destruct a as [x|v|rows]; simpl.
  - intros [= <-]. apply length_replicate.
  - apply Hvec.
  - destruct rows as [|v [|u rows]]; try done. apply Hvec.
Qed.


(** *** Computations that only read their object *)

Lemma reads_only_bind {S A B} (m : M S A) (f : A -> M S B) :
  reads_only m -> (forall a, reads_only (f a)) -> reads_only (m ≫= f).
Proof.
  intros Hm Hf s. unfold mbind, M_bind. specialize (Hm s).
  destruct (m s) as [s' [a|e]]; simpl in Hm; subst s'; [apply Hf|done].
Qed.

Lemma reads_only_ret {S A} (a : A) : reads_only (mret a : M S A).
Proof. by intros s. Qed.

Lemma reads_only_lift {S A} (r : result A) : reads_only (lift r : M S A).
Proof. by intros s. Qed.

Lemma reads_only_gets {S A} (f : S -> A) : reads_only (gets f).
Proof. by intros s. Qed.

Lemma reads_only_collectM {S A B} (xs : list A) (body : A -> M S B) :
  (forall x, reads_only (body x)) -> reads_only (collectM xs body).
Proof.
  intros Hbody. induction xs as [|x xs IH]; simpl.
  - apply reads_only_ret.
  - apply reads_only_bind; [apply Hbody|]. intros y.
    apply reads_only_bind; [apply IH|]. intros ys. apply reads_only_ret.
Qed.

Lemma reads_only_value_at (p : point) : reads_only (value_at p).
Proof. by intros w. Qed.

Lemma reads_only_project_endpoints (d : nat) (s : streamline) :
  reads_only (project_endpoints d s).
Proof.
  unfold project_endpoints.
  repeat (apply reads_only_bind; [first [apply reads_only_lift | apply reads_only_value_at]|intros ?]).
  apply reads_only_lift.
Qed.

Lemma reads_only_project_all_points (d : nat) (s : streamline) :
  reads_only (project_all_points d s).
Proof.
  unfold project_all_points.
  apply reads_only_bind; [apply reads_only_collectM, reads_only_value_at|intros ?].
  apply reads_only_bind; [apply reads_only_lift|intros ?]. apply reads_only_lift.
Qed.

(** C9.  [project_map_to_streamlines] leaves the tractogram (streamlines,
    data_per_streamline, data_per_point, space, origin) and the volume as
    they were, in both modes and whether it returns or raises; the sampled
    values are only returned. *)
Theorem project_map_to_streamlines_frame (endpoints_only : bool) (w : world) :
  fst (project_map_to_streamlines endpoints_only w) = w.
Proof.
  revert w. change (reads_only (project_map_to_streamlines endpoints_only)).
  unfold project_map_to_streamlines.
  apply reads_only_bind; [apply reads_only_gets|intros shape].
  apply reads_only_bind; [apply reads_only_gets|intros strs].
  destruct endpoints_only; apply reads_only_collectM; intros s.
  - apply reads_only_project_endpoints.
  - apply reads_only_project_all_points.
Qed.

(** *** The endpoints-only projection of a volume *)

Lemma py_index_first {A} (l : list A) (x : A) :
  l !! 0%nat = Some x -> py_index l 0 = Ok x.
Proof. apply (py_index_lookup l 0). Qed.

Lemma setitem_row_ok (d : nat) (arr : list (list fval)) (i : Z) (k : nat)
    (a : ndarray) (row : list fval) :
  norm_index (length arr) i = Ok k -> broadcast_row d a = Ok row ->
  setitem_row d arr i a = Ok (<[k := row]> arr).
Proof. intros Hi Ha. unfold setitem_row. rewrite Hi. simpl. by rewrite Ha. Qed.



Lemma project_endpoints_run (w : world) (d : nat) (s : streamline)
    (first final : point) (r0 r1 : list fval) :
  s !! 0%nat = Some first -> last s = Some final ->
  volume_answers w d first r0 -> volume_answers w d final r1 ->
  project_endpoints d s w =
    (w, Ok (<[(length s - 1)%nat := r1]>
              (<[0%nat := r0]> (replicate (length s) (replicate d NaN))))).
Proof.
  intros Hfirst Hlast (a & Ha & Hra) (b & Hb & Hrb).
  assert (Hpos : (0 < length s)%nat) by (by eapply lookup_lt_Some).
  unfold project_endpoints, mbind, M_bind, lift, value_at.
  rewrite (py_index_first s first Hfirst), Ha.
  rewrite (py_index_last s final Hlast), Hb.
  rewrite scale_ones_nan.
  rewrite (setitem_row_ok d _ 0 0%nat a r0);
    [|rewrite length_replicate; by apply (norm_index_nonneg _ 0)|done].
  rewrite (setitem_row_ok d _ (-1) (length s - 1)%nat b r1);
    [|rewrite length_insert, length_replicate; by apply norm_index_minus_one
     |done].
  rewrite reshape2_rows; [done|].
  apply broadcast_row_length in Hra, Hrb.
  apply Forall_insert; [|done]. apply Forall_insert; [|done].
  apply Forall_replicate, length_replicate.
Qed.



(** *** The result monad and the local loops *)

Lemma bind_Ok_inv {A B} (m : result A) (f : A -> result B) (b : B) :
  m ≫= f = Ok b -> exists a, m = Ok a /\ f a = Ok b.
Proof. destruct m as [a|e]; [by exists a|done]. Qed.

Lemma fold_loop_app {A B} (xs ys : list A) (body : A -> B -> result B)
    (acc : B) :
  fold_loop (xs ++ ys) body acc =
  fold_loop xs body acc ≫= fold_loop ys body.
Proof.
  revert acc. induction xs as [|x xs IH]; intros acc; simpl; [done|].
  destruct (body x acc) as [acc'|e]; simpl; [apply IH|done].
Qed.

Lemma fold_loop_ext {A B} (xs : list A) (f g : A -> B -> result B) (acc : B) :
  (forall x acc, x ∈ xs -> f x acc = g x acc) ->
  fold_loop xs f acc = fold_loop xs g acc.
Proof.
  revert acc. induction xs as [|x xs IH]; intros acc H; simpl; [done|].
  rewrite (H x acc) by set_solver. destruct (g x acc) as [acc'|e]; simpl; [|done].
  apply IH. intros y acc'' Hy. apply H. set_solver.
Qed.

Lemma fold_loop_nested {A C B} (xs : list A) (inner : A -> list C)
    (body : A -> C -> B -> result B) (acc : B) :
  fold_loop xs (fun x acc => fold_loop (inner x) (body x) acc) acc =
  fold_loop (flat_map (fun x => map (pair x) (inner x)) xs)
            (fun xy => body xy.1 xy.2) acc.
Proof.
  revert acc. induction xs as [|x xs IH]; intros acc; simpl; [done|].
  rewrite fold_loop_app.
  assert (Hinner : forall ys acc,
    fold_loop (map (pair x) ys) (fun xy => body xy.1 xy.2) acc
    = fold_loop ys (body x) acc).
  { induction ys as [|y ys IHy]; intros acc0; simpl; [done|].
    destruct (body x y acc0); simpl; [apply IHy|done]. }
  rewrite Hinner. destruct (fold_loop (inner x) (body x) acc); simpl; [apply IH|done].
Qed.

(** The two loops of [project_dpp_to_map] as one loop over the selected
    points. *)
Lemma accumulate_selected sft dpp_key endpoints_only :
  accumulate sft dpp_key endpoints_only =
  fold_loop (selected sft endpoints_only)
            (fun sp => visit sft dpp_key sp.1 sp.2)
            (np_zeros (dimensions sft), np_zeros (dimensions sft)).
Proof.
  unfold accumulate, selected.
  rewrite <- (fold_loop_nested _
    (fun s => selected_points endpoints_only (default [] (streamlines sft !! s)))
    (visit sft dpp_key)).
  apply fold_loop_ext. intros s acc Hs.
  apply elem_of_seq in Hs as [_ Hs]. simpl in Hs.
  destruct (lookup_lt_is_Some_2 (streamlines sft) s Hs) as [strm Hstrm].
  rewrite (py_index_lookup _ _ _ Hstrm), Hstrm. done.
Qed.

(** *** One visit of a cell *)

Lemma norm_index_lt (n : nat) (i : Z) (k : nat) :
  norm_index n i = Ok k -> (k < n)%nat.
Proof.
  unfold norm_index. repeat case_decide; intros [= <-]; lia.
Qed.

Lemma grid_offset_lt (shape : nat * nat * nat) (x y z : Z) (o : nat) :
  grid_offset shape x y z = Ok o -> (o < grid_size shape)%nat.
Proof.
  destruct shape as [[nx ny] nz]. unfold grid_offset, grid_size.
  intros H.
  apply bind_Ok_inv in H as (i & Hi & H).
  apply bind_Ok_inv in H as (j & Hj & H).
  apply bind_Ok_inv in H as (k & Hk & H).
  injection H as <-.
  apply norm_index_lt in Hi, Hj, Hk.
  assert (i * ny + j < nx * ny)%nat by nia.
  assert ((i * ny + j) * nz + nz <= nx * ny * nz)%nat by nia.
  lia.
Qed.

Lemma grid_get_inv (g : grid) (x y z : Z) (c : fval) :
  grid_get g x y z = Ok c ->
  exists o, grid_offset (g_shape g) x y z = Ok o /\ g_data g !! o = Some c.
Proof.
  unfold grid_get. intros H. apply bind_Ok_inv in H as (o & Ho & H).
  exists o. split; [done|]. by destruct (g_data g !! o); simplify_eq.
Qed.

Lemma grid_set_inv (g g' : grid) (x y z : Z) (v : fval) (o : nat) :
  grid_offset (g_shape g) x y z = Ok o ->
  grid_set g x y z v = Ok g' ->
  g' = mk_grid (g_shape g) (<[o := v]> (g_data g)).
Proof. unfold grid_set. intros ->. simpl. by intros [= <-]. Qed.

Lemma visit_inv sft dpp_key s p count the_map count' the_map' :
  g_shape count = dimensions sft -> g_shape the_map = dimensions sft ->
  visit sft dpp_key s p (count, the_map) = Ok (count', the_map') ->
  exists o c m v,
    point_offset sft s p = Some o /\
    g_data count !! o = Some c /\
    g_data the_map !! o = Some m /\
    count' = mk_grid (dimensions sft) (<[o := fadd c (Num 1)]> (g_data count)) /\
    the_map' = mk_grid (dimensions sft) (<[o := fadd m v]> (g_data the_map)).
Proof.
  intros Hc Hm H. unfold visit in H. unfold point_offset.
  apply bind_Ok_inv in H as (strm & -> & H).
  apply bind_Ok_inv in H as (pt & -> & H).
  destruct (voxel_of pt) as [[x y] z].
  apply bind_Ok_inv in H as (c & Hget & H).
  apply grid_get_inv in Hget as (o & Ho & Hco).
  apply bind_Ok_inv in H as (count1 & Hset & H).
  apply (grid_set_inv _ _ _ _ _ _ o Ho) in Hset.
  apply bind_Ok_inv in H as (m & Hgetm & H).
  apply grid_get_inv in Hgetm as (o' & Ho' & Hmo).
  rewrite Hc in Ho. rewrite Hm in Ho'. rewrite Ho in Ho'. injection Ho' as <-.
  apply bind_Ok_inv in H as (obj & _ & H).
  apply bind_Ok_inv in H as (v & _ & H).
  apply bind_Ok_inv in H as (the_map1 & Hsetm & H).
  injection H as <- <-.
  unfold grid_set_array in Hsetm.
  destruct v as [|v0 [|v1 v]]; try done. simpl in Hsetm.
  rewrite <- Hm in Ho. apply (grid_set_inv _ _ _ _ _ _ o Ho) in Hsetm.
  rewrite Hm in Ho. rewrite Ho.
  exists o, c, m, v0. rewrite Hc in Hset. rewrite Hm in Hsetm. done.
Qed.

Lemma counted_succ (k : nat) : counted (S k) = fadd (counted k) (Num 1).
Proof. reflexivity. Qed.

Lemma accumulated_zeros (shape : nat * nat * nat) :
  accumulated shape [] (np_zeros shape, np_zeros shape).
Proof.
  unfold accumulated, np_zeros. simpl. rewrite length_replicate.
  repeat split; try done.
  - by apply lookup_replicate.
  - intros _. by apply lookup_replicate.
Qed.

Lemma accumulated_visit sft dpp_key s p seen acc acc' :
  accumulated (dimensions sft) seen acc ->
  visit sft dpp_key s p acc = Ok acc' ->
  exists o, point_offset sft s p = Some o /\
            accumulated (dimensions sft) (seen ++ [o]) acc'.
Proof.
  destruct acc as [count the_map], acc' as [count' the_map'].
  intros (Hc & Hm & Hlc & Hlm & Hcells) H. simpl in *.
  apply visit_inv in H as (o & c & m & v & Ho & Hco & Hmo & -> & ->); try done.
  exists o. split; [done|].
  unfold accumulated. simpl. rewrite !length_insert.
  split; [done|]. split; [done|]. split; [done|]. split; [done|].
  intros o' Ho'. destruct (Hcells o' Ho') as [Hcount Hzero]. split.
  - rewrite count_occ_app. simpl.
    destruct (decide (o = o')) as [->|Hne].
    + rewrite list_lookup_insert_eq by (by eapply lookup_lt_Some).
      destruct (Nat.eq_dec o' o'); [|done].
      rewrite Nat.add_1_r, counted_succ. congruence.
    + rewrite list_lookup_insert_ne by done.
      destruct (Nat.eq_dec o o'); [done|]. by rewrite Nat.add_0_r.
  - intros Hnot. apply not_elem_of_app in Hnot as [Hseen Hlast].
    apply not_elem_of_cons in Hlast as [Hne _].
    rewrite list_lookup_insert_ne by congruence. by apply Hzero.
Qed.

Lemma accumulated_loop sft dpp_key (points : list (nat * Z)) seen acc acc' :
  accumulated (dimensions sft) seen acc ->
  fold_loop points (fun sp => visit sft dpp_key sp.1 sp.2) acc = Ok acc' ->
  accumulated (dimensions sft)
    (seen ++ omap (fun sp => point_offset sft sp.1 sp.2) points) acc'.
Proof.
  revert seen acc. induction points as [|[s p] points IH]; intros seen acc Hacc H.
  - simpl in *. injection H as <-. by rewrite app_nil_r.
  - simpl in H. apply bind_Ok_inv in H as (acc1 & Hvisit & H).
    destruct (accumulated_visit _ _ _ _ _ _ _ Hacc Hvisit) as (o & Ho & Hacc1).
    simpl. rewrite Ho. rewrite cons_middle, app_assoc. by apply (IH _ acc1).
Qed.

Lemma accumulate_accumulated sft dpp_key endpoints_only acc :
  accumulate sft dpp_key endpoints_only = Ok acc ->
  accumulated (dimensions sft) (visited_voxels sft endpoints_only) acc.
Proof.
  rewrite accumulate_selected. intros H.
  pose proof (accumulated_zeros (dimensions sft)) as Hzeros.
  apply (accumulated_loop sft dpp_key (selected sft endpoints_only) []
           (np_zeros (dimensions sft), np_zeros (dimensions sft)) acc Hzeros H).
Qed.

(** *** project_dpp_to_map *)

Lemma project_dpp_to_map_run dpp_key sum_lines endpoints_only sft :
  project_dpp_to_map dpp_key sum_lines endpoints_only sft =
  match accumulate (to_corner (to_vox sft)) dpp_key endpoints_only with
  | Ok (count, the_map) =>
      (to_corner (to_vox sft),
       Ok (if negb sum_lines
           then grid_divide the_map (grid_maximum count (Num Qeps))
           else the_map))
  | Raise e => (to_corner (to_vox sft), Raise e)
  end.
Proof.
  unfold project_dpp_to_map, mbind, M_bind, modify, get, lift.
  destruct (accumulate _ _ _) as [[count the_map]|e]; [|done].
  by destruct sum_lines.
Qed.

Lemma Qdiv_1_r_eq (q : Q) : (q / 1)%Q = q.
Proof.
  destruct q as [n d]. unfold Qdiv, Qinv, Qmult. simpl.
  by rewrite Z.mul_1_r, Pos.mul_1_r.
Qed.

Lemma fdiv_one (x : fval) : fdiv x (Num 1) = x.
Proof.
  destruct x as [|s|q]; simpl; [done|by rewrite xorb_false_r|].
  by rewrite Qdiv_1_r_eq.
Qed.

(** The division of one cell by its floored counter, when the cell was
    visited at most once. *)
Lemma divide_cell (k : nat) (m : fval) :
  (k <= 1)%nat -> (k = 0%nat -> m = Num 0) ->
  fdiv m (fmax (counted k) (Num Qeps)) = m.
Proof.
  intros Hk Hm. destruct k as [|[|k]]; [|apply fdiv_one|lia].
  by rewrite Hm.
Qed.

Lemma grid_divide_once shape seen count the_map :
  accumulated shape seen (count, the_map) -> NoDup seen ->
  grid_divide the_map (grid_maximum count (Num Qeps)) = the_map.
Proof.
  intros (Hc & Hm & Hlc & Hlm & Hcells) Hnodup. simpl in *.
  destruct the_map as [mshape mdata]. unfold grid_divide. simpl in *. f_equal.
  apply list_eq. intros o. rewrite lookup_zip_with, list_lookup_fmap.
  destruct (decide (o < grid_size shape)%nat) as [Ho|Ho].
  - destruct (Hcells o Ho) as [Hcount Hzero].
    destruct (lookup_lt_is_Some_2 mdata o) as [m Hmo]; [lia|].
    rewrite Hmo, Hcount. simpl. f_equal. apply divide_cell.
    + apply NoDup_ListNoDup in Hnodup.
      apply (proj1 (NoDup_count_occ Nat.eq_dec seen) Hnodup).
    + intros Hk. apply (count_occ_not_In Nat.eq_dec) in Hk.
      rewrite <- list_elem_of_In in Hk. specialize (Hzero Hk). congruence.
  - rewrite (lookup_ge_None_2 mdata) by lia. done.
Qed.

Lemma grid_divide_unvisited shape seen count the_map o :
  accumulated shape seen (count, the_map) ->
  (o < grid_size shape)%nat -> o ∉ seen ->
  g_data (grid_divide the_map (grid_maximum count (Num Qeps))) !! o
    = Some (Num 0).
Proof.
  intros (Hc & Hm & Hlc & Hlm & Hcells) Ho Hnot. simpl in *.
  destruct (Hcells o Ho) as [Hcount Hzero].
  rewrite lookup_zip_with, list_lookup_fmap, (Hzero Hnot), Hcount.
  assert (Hk : count_occ Nat.eq_dec seen o = 0%nat).
  { apply count_occ_not_In. by rewrite <- list_elem_of_In. }
  rewrite Hk. reflexivity.
Qed.

Lemma to_corner_to_vox_dimensions sft :
  dimensions (to_corner (to_vox sft)) = dimensions sft.
Proof. reflexivity. Qed.

(** C3 (amended).  Let every cell of the grid be visited at most once by
    the loops, all streamlines counted, a visit being one selected index:
    in endpoints-only mode the indices 0 and -1 of every streamline, so
    that the point of a streamline of one point makes two visits.  Then
    [project_dpp_to_map] gives with [sum_lines=False] what it gives with
    [sum_lines=True].  With [sum_lines=False] a cell never visited holds
    zero in the returned map: its sum, zero, is divided by the floor 1e-6
    of its counter. *)
Theorem project_dpp_to_map_sum_lines (dpp_key : string)
    (endpoints_only : bool) (sft : StatefulTractogram) :
  let sft' := to_corner (to_vox sft) in
  (NoDup (visited_voxels sft' endpoints_only) ->
   project_dpp_to_map dpp_key false endpoints_only sft
   = project_dpp_to_map dpp_key true endpoints_only sft)
  /\
  (forall the_map o,
     project_dpp_to_map dpp_key false endpoints_only sft = (sft', Ok the_map) ->
     (o < grid_size (dimensions sft))%nat ->
     o ∉ visited_voxels sft' endpoints_only ->
     g_data the_map !! o = Some (Num 0)).
Proof.
  intros sft'. rewrite !project_dpp_to_map_run. fold sft'.
  destruct (accumulate sft' dpp_key endpoints_only) as [[count the_map]|e] eqn:Hacc.
  - apply accumulate_accumulated in Hacc. simpl. split.
    + intros Hnodup. by erewrite grid_divide_once.
    + intros m o [= <-] Ho Hnot. by eapply grid_divide_unvisited.
  - split; [done|]. intros m o [=].
Qed.

Lemma visit_missing_key sft dpp_key s p o :
  data_per_point sft !! dpp_key = None ->
  point_offset sft s p = Some o ->
  visit sft dpp_key s p (np_zeros (dimensions sft), np_zeros (dimensions sft))
    = Raise (if decide (size (data_per_point sft) = 0%nat) then not_a_scalar
             else KeyError dpp_key).
Proof.
  intros Hkey Ho. unfold point_offset in Ho. unfold visit.
  destruct (py_index (streamlines sft) (Z.of_nat s)) as [strm|]; [|done].
  cbn [mbind result_bind].
  destruct (py_index strm p) as [pt|]; [|done].
  cbn [mbind result_bind]. unfold voxel_of in *.
  destruct (grid_offset (dimensions sft) (astype_int (px pt))
              (astype_int (py pt)) (astype_int (pz pt))) as [o'|] eqn:Hoff;
    [|done].
  injection Ho as ->.
  pose proof (grid_offset_lt _ _ _ _ _ Hoff) as Hlt.
  unfold grid_get, grid_set, sliceable_get, np_zeros. cbn [g_shape g_data].
  rewrite Hoff. cbn [mbind result_bind g_shape g_data].
  rewrite lookup_replicate_2 by done. cbn [mbind result_bind].
  rewrite Hkey. by destruct (decide (size (data_per_point sft) = 0%nat)).
Qed.

Lemma selected_first sft endpoints_only o :
  point_offset sft 0 0 = Some o ->
  exists others, selected sft endpoints_only = (0%nat, 0) :: others.
Proof.
  unfold point_offset, selected. intros Ho.
  destruct (streamlines sft) as [|strm strs].
  { by rewrite py_index_empty in Ho. }
  destruct strm as [|pt strm].
  { rewrite (py_index_lookup ([] :: strs) 0 [] eq_refl) in Ho.
    by rewrite py_index_empty in Ho. }
  destruct endpoints_only; simpl; eauto.
Qed.

Lemma grid_divide_zeros (shape : nat * nat * nat) :
  grid_divide (np_zeros shape) (grid_maximum (np_zeros shape) (Num Qeps))
  = np_zeros shape.
Proof.
  unfold grid_divide, grid_maximum, np_zeros. simpl. f_equal.
  rewrite fmap_replicate, zip_with_replicate. reflexivity.
Qed.

(** C10 (amended).  [project_dpp_to_map] converts the tractogram to voxel
    space and voxel-corner origin before it reads the data_per_point key,
    and the conversion stays whether the call returns or raises.  The key
    is read when a point is visited.  When the key is absent and the first
    selected point falls in the grid (as does a first streamline that
    starts in the grid), the call raises on the converted tractogram: the
    missing-key lookup error when data_per_point holds some other key, and
    a ValueError when data_per_point holds no key at all (the lookup then
    gives a dictionary without entry, which cannot be stored in a cell of
    the map).  When no point is selected the key is not read and the map
    of zeros is returned. *)
Theorem project_dpp_to_map_missing_key (dpp_key : string)
    (sum_lines endpoints_only : bool) (sft : StatefulTractogram) :
  let sft' := to_corner (to_vox sft) in
  fst (project_dpp_to_map dpp_key sum_lines endpoints_only sft) = sft' /\
  space sft' = VOX /\ origin sft' = TRACKVIS /\
  (data_per_point sft !! dpp_key = None ->
   (forall s p others,
      selected sft' endpoints_only = (s, p) :: others ->
      is_Some (point_offset sft' s p) ->
      (data_per_point sft <> ∅ ->
       project_dpp_to_map dpp_key sum_lines endpoints_only sft
         = (sft', Raise (KeyError dpp_key))) /\
      (data_per_point sft = ∅ ->
       exists msg,
         project_dpp_to_map dpp_key sum_lines endpoints_only sft
           = (sft', Raise (ValueError msg)))) /\
   (is_Some (point_offset sft' 0 0) ->
    (data_per_point sft <> ∅ ->
     project_dpp_to_map dpp_key sum_lines endpoints_only sft
       = (sft', Raise (KeyError dpp_key))) /\
    (data_per_point sft = ∅ ->
     exists msg,
       project_dpp_to_map dpp_key sum_lines endpoints_only sft
         = (sft', Raise (ValueError msg)))) /\
   (selected sft' endpoints_only = [] ->
    project_dpp_to_map dpp_key sum_lines endpoints_only sft
      = (sft', Ok (np_zeros (dimensions sft))))).
Proof.
  intros sft'. rewrite !project_dpp_to_map_run. fold sft'.
  split; [by destruct (accumulate _ _ _) as [[? ?]|?]|].
  split; [done|]. split; [done|].
  intros Hkey.
  assert (Hraise : forall s p others,
    selected sft' endpoints_only = (s, p) :: others ->
    is_Some (point_offset sft' s p) ->
    (data_per_point sft <> ∅ ->
     accumulate sft' dpp_key endpoints_only = Raise (KeyError dpp_key)) /\
    (data_per_point sft = ∅ ->
     accumulate sft' dpp_key endpoints_only = Raise not_a_scalar)).
  { intros s p others Hsel [o Ho].
    rewrite accumulate_selected, Hsel. cbn [fold_loop fst snd].
    rewrite (visit_missing_key sft' dpp_key s p o Hkey Ho).
    change (data_per_point sft') with (data_per_point sft).
    split; intros Hdpp.
    - rewrite decide_False; [done|]. by rewrite map_size_empty_iff.
    - rewrite decide_True; [done|]. by rewrite map_size_empty_iff. }
  split; [|split].
  - intros s p others Hsel Ho.
    destruct (Hraise s p others Hsel Ho) as [Hsome Hnone].
    split; intros Hdpp.
    + by rewrite (Hsome Hdpp).
    + rewrite (Hnone Hdpp). by eexists.
  - intros [o Ho].
    destruct (selected_first sft' endpoints_only o Ho) as [others Hsel].
    destruct (Hraise 0%nat 0 others Hsel (ex_intro _ o Ho)) as [Hsome Hnone].
    split; intros Hdpp.
    + by rewrite (Hsome Hdpp).
    + rewrite (Hnone Hdpp). by eexists.
  - intros Hsel. rewrite accumulate_selected, Hsel. cbn [fold_loop].
    change (dimensions sft') with (dimensions sft).
    destruct sum_lines; simpl; [done|]. by rewrite grid_divide_zeros.
Qed.

(** *** The operator registry *)

Lemma OPERATIONS_mean : OPERATIONS !! "mean" = Some (def1 stream_mean).
Proof. unfold OPERATIONS. by rewrite lookup_insert_eq. Qed.

Lemma OPERATIONS_sum : OPERATIONS !! "sum" = Some (def1 stream_sum).
Proof.
  unfold OPERATIONS. rewrite lookup_insert_ne by done.
  by rewrite lookup_insert_eq.
Qed.

Lemma OPERATIONS_min : OPERATIONS !! "min" = Some (def1 stream_min).
Proof.
  unfold OPERATIONS. rewrite !(lookup_insert_ne _ _ "min") by done.
  by rewrite lookup_insert_eq.
Qed.

Lemma OPERATIONS_max : OPERATIONS !! "max" = Some (def1 stream_max).
Proof.
  unfold OPERATIONS. rewrite !(lookup_insert_ne _ _ "max") by done.
  by rewrite lookup_insert_eq.
Qed.

Lemma OPERATIONS_correlation :
  OPERATIONS !! "correlation" = Some (def2 stream_correlation).
Proof.
  unfold OPERATIONS. rewrite !(lookup_insert_ne _ _ "correlation") by done.
  by rewrite lookup_insert_eq.
Qed.

Lemma OPERATIONS_names :
  dom OPERATIONS = {[ "mean"; "sum"; "min"; "max"; "correlation" ]}.
Proof.
  unfold OPERATIONS. rewrite !dom_insert_L, dom_empty_L. set_solver.
Qed.

Lemma OPERATIONS_reducers :
  Forall (fun nf => OPERATIONS !! nf.1
            = Some (def1 (fun a => squeeze <$> reduce_axis0 nf.2 a)))
         reducers.
Proof.
  unfold reducers. repeat apply Forall_cons_2; try apply Forall_nil_2; simpl.
  - apply OPERATIONS_mean.
  - apply OPERATIONS_sum.
  - apply OPERATIONS_min.
  - apply OPERATIONS_max.
Qed.

Lemma reducers_total :
  Forall (fun nf : string * (list fval -> result fval) => total_on_values nf.2)
         reducers.
Proof.
  unfold reducers. repeat apply Forall_cons_2; try apply Forall_nil_2;
    intros v Hv; simpl; eauto; destruct v; [done|eauto|done|eauto].
Qed.

Lemma collect_total {A B} (xs : list A) (body : A -> result B) :
  (forall x, x ∈ xs -> exists y, body x = Ok y) ->
  exists ys, collect xs body = Ok ys /\ length ys = length xs.
Proof.
  induction xs as [|x xs IH]; intros H; simpl; [by exists []|].
  destruct (H x) as [y Hy]; [set_solver|].
  destruct IH as (ys & Hys & Hlen); [intros ? ?; apply H; set_solver|].
  exists (y :: ys). rewrite Hy. simpl. rewrite Hys. simpl. by rewrite Hlen.
Qed.

(** Rows of one value each: the reduction along axis 0 has one entry, and
    squeeze makes a scalar of it. *)
Lemma reduce_one_column (f : list fval -> result fval)
    (rows : list (list fval)) :
  total_on_values f -> rows <> [] -> Forall (fun r => length r = 1%nat) rows ->
  exists x, squeeze <$> reduce_axis0 f (A2 rows) = Ok (A0 x).
Proof.
  intros Hf Hne Hrows. destruct rows as [|r rows]; [done|].
  unfold reduce_axis0, width. simpl.
  rewrite (Forall_inv Hrows). simpl.
  destruct (Hf (nth 0 r NaN :: column 0 rows)) as [x Hx]; [done|].
  unfold column in *. rewrite Hx. simpl. by exists x.
Qed.

(** A single row of two values or more: the reduction has as many entries
    as the row, and squeeze leaves it an array. *)
Lemma reduce_single_row (f : list fval -> result fval) (row : list fval) :
  total_on_values f -> (2 <= length row)%nat ->
  exists v, squeeze <$> reduce_axis0 f (A2 [row]) = Ok (A1 v) /\
            length v = length row.
Proof.
  intros Hf Hlen. unfold reduce_axis0, width. cbn [hd].
  destruct (collect_total (seq 0 (length row)) (fun j => f (column j [row])))
    as (v & Hv & Hlv).
  { intros j _. apply Hf. done. }
  rewrite length_seq in Hlv.
  rewrite Hv. simpl. exists v. split; [|done].
  destruct v as [|a [|b v]]; simpl in *; try lia. done.
Qed.

(** *** The correlation of two vectors *)

Lemma np_corrcoef_vectors (u v : list fval) :
  length u = length v ->
  np_corrcoef (A1 u) (A1 v)
  = Ok (A2 [ [pearson u u; pearson u v]; [pearson v u; pearson v v] ]).
Proof.
  intros Hlen. unfold np_corrcoef, pearson, covariance. cbn [rows_of app].
  rewrite decide_True.
  2:{ unfold width. cbn [hd]. repeat constructor. done. }
  rewrite <- Hlen. reflexivity.
Qed.

Lemma Qzero_of_one (s : Q) : (s == 1)%Q -> Qzero s = false.
Proof.
  intros Hs. unfold Qzero. apply not_true_iff_false. intros H.
  apply Qeq_bool_iff in H. rewrite Hs in H. discriminate H.
Qed.

(** A covariance of one over standard deviations of one. *)
Lemma clip_quotient_one (q s t : Q) :
  (q == 1)%Q -> (s == 1)%Q -> (t == 1)%Q ->
  feq (clip (fdiv (fdiv (Num q) (Num s)) (Num t))) (Num 1).
Proof.
  intros Hq Hs Ht. unfold feq. cbn [fdiv].
  rewrite (Qzero_of_one s Hs). cbn [fdiv]. rewrite (Qzero_of_one t Ht).
  assert (Hx : (q / s / t == 1)%Q) by (rewrite Hq, Hs, Ht; reflexivity).
  unfold clip. cbn [fmax fleb].
  assert (Hlow : Qle_bool (q / s / t) (-1) = false).
  { apply not_true_iff_false. intros H. apply Qle_bool_iff in H.
    rewrite Hx in H. by apply Qle_bool_iff in H. }
  rewrite Hlow. cbn [fmin fleb].
  assert (Hhigh : Qle_bool (q / s / t) 1 = true).
  { apply Qle_bool_iff. rewrite Hx. apply Qle_refl. }
  rewrite Hhigh. cbn [feqb]. by apply Qeq_bool_iff.
Qed.

Lemma pearson_identical_ramp :
  (forall q, (q == 1)%Q -> (sqrtQ q == 1)%Q) ->
  feq (pearson [num 1; num 2; num 3] [num 1; num 2; num 3]) (Num 1).
Proof.
  intros Hsqrt. unfold pearson.
  assert (Hcov : exists q, covariance [num 1; num 2; num 3] [num 1; num 2; num 3]
                           = Num q /\ (q == 1)%Q /\ Qneg q = false).
  { eexists. split; [vm_compute; reflexivity|]. split; reflexivity. }
  destruct Hcov as (q & -> & Hq & Hneg).
  unfold fsqrt. rewrite Hneg.
  apply clip_quotient_one; [done|by apply Hsqrt|by apply Hsqrt].
Qed.

Lemma collect_map {A B} (xs : list A) (body : A -> result B) (f : A -> B) :
  (forall x, x ∈ xs -> body x = Ok (f x)) ->
  collect xs body = Ok (map f xs).
Proof.
  induction xs as [|x xs IH]; intros H; simpl; [done|].
  rewrite (H x) by set_solver. simpl. rewrite IH; [done|].
  intros y Hy. apply H. set_solver.
Qed.

Lemma collect_ext {A B} (xs : list A) (f g : A -> result B) :
  (forall x, x ∈ xs -> f x = g x) -> collect xs f = collect xs g.
Proof.
  induction xs as [|x xs IH]; intros H; simpl; [done|].
  rewrite (H x) by set_solver. rewrite IH; [done|].
  intros y Hy. apply H. set_solver.
Qed.

Lemma perform_operation_dpp_to_dps_run op_name call_op dpp_name
    endpoints_only sft seqs :
  OPERATIONS !! op_name = Some call_op ->
  data_per_point sft !! dpp_name = Some seqs ->
  perform_operation_dpp_to_dps op_name dpp_name endpoints_only sft
  = (sft, if endpoints_only then collect seqs (reduce_endpoints call_op)
          else collect seqs (reduce_points call_op)).
Proof.
  intros Hop Hkey.
  unfold perform_operation_dpp_to_dps, mbind, M_bind, lift, gets, dict_get.
  rewrite Hop, (sliceable_get_entry _ _ _ Hkey). by destruct endpoints_only.
Qed.

Lemma perform_pairwise_run op_name call_op dpp_name sft seqs :
  OPERATIONS !! op_name = Some call_op ->
  data_per_point sft !! dpp_name = Some seqs ->
  perform_pairwise_streamline_operation_on_endpoints op_name dpp_name sft
  = (sft, collect seqs (pairwise_on_endpoints call_op)).
Proof.
  intros Hop Hkey.
  unfold perform_pairwise_streamline_operation_on_endpoints,
    mbind, M_bind, lift, gets, dict_get.
  by rewrite Hop, (sliceable_get_entry _ _ _ Hkey).
Qed.



Lemma reduce_endpoints_concat call_op (s : list (list fval)) :
  s <> [] ->
  reduce_endpoints call_op s = call_op [A1 (endpoints_concat s)].
Proof.
  intros Hs. unfold reduce_endpoints, endpoints_concat.
  destruct s as [|first s]; [done|].
  destruct (last (first :: s)) as [final|] eqn:Hlast.
  2:{ by apply last_None in Hlast. }
  rewrite (py_index_first (first :: s) first eq_refl).
  rewrite (py_index_last _ _ Hlast). done.
Qed.

(** C5.  With [endpoints_only=True], [perform_operation_dpp_to_dps] gives
    for every streamline the named operator applied to one vector, the
    first point's vector followed by the last point's.  This is not the
    reduction of the whole per-point sequence: on the per-point values
    1, 2, 3, 10 the operator 'mean' gives 4 over the sequence and
    5.5 = mean of [1, 10] over the endpoints. *)
Theorem perform_operation_dpp_to_dps_endpoints :
  (forall op_name call_op dpp_name sft seqs,
     OPERATIONS !! op_name = Some call_op ->
     data_per_point sft !! dpp_name = Some seqs ->
     Forall (fun s => s <> []) seqs ->
     perform_operation_dpp_to_dps op_name dpp_name true sft
     = (sft, collect seqs (fun s => call_op [A1 (endpoints_concat s)])))
  /\
  (exists x y,
     perform_operation_dpp_to_dps "mean" "metric" false sft_skewed
       = (sft_skewed, Ok [A0 x]) /\ feq x (num 4) /\
     perform_operation_dpp_to_dps "mean" "metric" true sft_skewed
       = (sft_skewed, Ok [A0 y]) /\ feq y (Num (11 # 2)) /\
     feqb x y = false).
Proof.
  split.
  - intros op_name call_op dpp_name sft seqs Hop Hkey Hne.
    rewrite (perform_operation_dpp_to_dps_run _ call_op _ _ _ seqs Hop Hkey).
    f_equal. apply collect_ext. intros s Hs.
    apply reduce_endpoints_concat. by eapply Forall_forall in Hne.
  - exists (Num (16 # 4)), (Num (11 # 2)).
    rewrite !(perform_operation_dpp_to_dps_run "mean" (def1 stream_mean)
                "metric" _ sft_skewed
                [ [[num 1]; [num 2]; [num 3]; [num 10]] ] OPERATIONS_mean eq_refl).
    repeat split; reflexivity.
Qed.

Lemma reducers_shapes :
  Forall (fun nf : string * (list fval -> result fval) =>
            forall call_op, OPERATIONS !! nf.1 = Some call_op ->
              (forall v, v <> [] -> exists x, call_op [A1 v] = Ok (A0 x)) /\
              (forall rows, rows <> [] ->
                 Forall (fun r => length r = 1%nat) rows ->
                 exists x, call_op [A2 rows] = Ok (A0 x)) /\
              (forall row, (2 <= length row)%nat ->
                 exists v, call_op [A2 [row]] = Ok (A1 v) /\
                           length v = length row))
         reducers.
Proof.
  pose proof OPERATIONS_reducers as Hops. pose proof reducers_total as Htot.
  rewrite Forall_forall in Hops, Htot. apply Forall_forall.
  intros [name f] Hin call_op Hcall. simpl in *.
  specialize (Hops _ Hin). specialize (Htot _ Hin). simpl in *.
  rewrite Hops in Hcall. injection Hcall as <-. split; [|split].
  - intros v Hv. destruct (Htot v Hv) as [x Hx]. exists x. simpl.
    by rewrite Hx.
  - intros rows Hne Hrows. by apply reduce_one_column.
  - intros row Hrow. by apply reduce_single_row.
Qed.

(** C6 (amended).  The registry maps exactly the five names mean, sum, min,
    max, correlation.  The first four reduce the given array along axis 0
    and squeeze the result: over a sequence of values, and over rows that
    hold one value each, the result is a scalar, not an array of length
    one, while a single row of two values or more comes back as an array
    of the length of the row;
    mean([[1,2],[3,4]]) = [2,3], sum = [4,6], min = [1,2], max = [3,4].
    correlation gives the matrix of the Pearson coefficients of two
    sequences of equal length; for [1,2,3] and [1,2,3] its off-diagonal
    entry is 1 (the square root being exact at 1). *)
Theorem operations_registry :
  (forall q, (q == 1)%Q -> (sqrtQ q == 1)%Q) ->
  dom OPERATIONS = {[ "mean"; "sum"; "min"; "max"; "correlation" ]} /\
  Forall (fun nf => OPERATIONS !! nf.1
            = Some (def1 (fun a => squeeze <$> reduce_axis0 nf.2 a)))
         reducers /\
  Forall (fun nf : string * (list fval -> result fval) =>
            forall call_op, OPERATIONS !! nf.1 = Some call_op ->
              (forall v, v <> [] -> exists x, call_op [A1 v] = Ok (A0 x)) /\
              (forall rows, rows <> [] ->
                 Forall (fun r => length r = 1%nat) rows ->
                 exists x, call_op [A2 rows] = Ok (A0 x)) /\
              (forall row, (2 <= length row)%nat ->
                 exists v, call_op [A2 [row]] = Ok (A1 v) /\
                           length v = length row))
         reducers /\
  (exists r, stream_mean (A2 [[num 1; num 2]; [num 3; num 4]]) = Ok r /\
             aeqb r (A1 [num 2; num 3]) = true) /\
  stream_sum (A2 [[num 1; num 2]; [num 3; num 4]]) = Ok (A1 [num 4; num 6]) /\
  stream_min (A2 [[num 1; num 2]; [num 3; num 4]]) = Ok (A1 [num 1; num 2]) /\
  stream_max (A2 [[num 1; num 2]; [num 3; num 4]]) = Ok (A1 [num 3; num 4]) /\
  OPERATIONS !! "correlation" = Some (def2 stream_correlation) /\
  (forall u v, length u = length v ->
     stream_correlation (A1 u) (A1 v)
     = Ok (A2 [ [pearson u u; pearson u v]; [pearson v u; pearson v v] ])) /\
  (exists r x,
     stream_correlation (A1 [num 1; num 2; num 3]) (A1 [num 1; num 2; num 3])
       = Ok r /\
     getitem2 r 0 1 = Ok x /\ feq x (num 1)).
Proof.
  intros Hsqrt.
  split; [apply OPERATIONS_names|].
  split; [apply OPERATIONS_reducers|].
  split; [apply reducers_shapes|].
  split; [eexists; split; [reflexivity|reflexivity]|].
  split; [reflexivity|]. split; [reflexivity|]. split; [reflexivity|].
  split; [apply OPERATIONS_correlation|].
  split; [intros u v Hlen; by apply np_corrcoef_vectors|].
  eexists _, _. unfold stream_correlation.
  rewrite np_corrcoef_vectors by done.
  split; [reflexivity|]. split; [reflexivity|].
  by apply pearson_identical_ramp.
Qed.

(** *** The pairwise operation on endpoints *)



Lemma pairwise_correlation (s : list (list fval)) first final :
  s !! 0%nat = Some first -> last s = Some final ->
  length first = length final ->
  pairwise_on_endpoints (def2 stream_correlation) s = Ok (pearson first final).
Proof.
  intros Hfirst Hlast Hlen. unfold pairwise_on_endpoints, call_on_endpoints.
  rewrite (py_index_first s first Hfirst), (py_index_last s final Hlast).
  cbn [mbind result_bind def2]. unfold stream_correlation.
  rewrite np_corrcoef_vectors by done. reflexivity.
Qed.


(** ** Further properties of [convert_dps_to_dpp] *)

Lemma for_each_cons {S A} (x : A) (xs : list A) (body : A -> M S unit) (s : S) :
  for_each (x :: xs) body s =
  match body x s with
  | (s', Ok _) => for_each xs body s'
  | (s', Raise e) => (s', Raise e)
  end.
Proof. reflexivity. Qed.

(** One turn of the loop either raises on an untouched tractogram or moves
    the key. *)
Lemma convert_key_cases overwrite key T :
  (exists e, convert_key overwrite key T = (T, Raise e) /\
     (data_per_streamline T !! key = None \/
      (overwrite = false /\ is_Some (data_per_point T !! key)))) \/
  (exists vals,
     data_per_streamline T !! key = Some vals /\
     (data_per_point T !! key = None \/ overwrite = true) /\
     convert_key overwrite key T = (moved T key vals, Ok tt)).
Proof.
  destruct (data_per_streamline T !! key) as [vals|] eqn:Hs.
  - destruct (data_per_point T !! key) as [old|] eqn:Hp.
    + destruct overwrite.
      * right. exists vals. split; [done|]. split; [by right|].
        apply convert_key_moves; [done|by right].
      * left. eexists. split; [by eapply convert_key_collision|].
        right. split; [done|]. by eexists.
    + right. exists vals. split; [done|]. split; [by left|].
      apply convert_key_moves; [done|by left].
  - left. eexists. split; [by apply convert_key_missing|by left].
Qed.

Lemma same_outside_refl keys T : same_outside keys T T.
Proof. by repeat split. Qed.

Lemma same_outside_moved key keys T vals :
  same_outside (key :: keys) T (moved T key vals).
Proof.
  split; [done|]. split; [done|]. split; [done|]. split; [done|].
  intros k Hk. simpl. split.
  - apply lookup_delete_ne. intros ->. apply Hk. by left.
  - apply lookup_insert_ne. intros ->. apply Hk. by left.
Qed.

Lemma same_outside_trans key keys T T1 T2 :
  same_outside (key :: keys) T T1 -> same_outside keys T1 T2 ->
  same_outside (key :: keys) T T2.
Proof.
  intros (Hs & Hsp & Ho & Hd & Hk) (Hs' & Hsp' & Ho' & Hd' & Hk').
  split; [congruence|]. split; [congruence|]. split; [congruence|].
  split; [congruence|].
  intros k Hnot. destruct (Hk k Hnot) as [<- <-].
  apply Hk'. intros Hin. apply Hnot. by right.
Qed.

Lemma for_each_convert_frame overwrite keys T :
  same_outside keys T (fst (for_each keys (convert_key overwrite) T)).
Proof.
  revert T. induction keys as [|key keys IH]; intros T.
  - apply same_outside_refl.
  - rewrite for_each_cons.
    destruct (convert_key_cases overwrite key T)
      as [(e & -> & _)|(vals & _ & _ & ->)].
    + apply same_outside_refl.
    + specialize (IH (moved T key vals)).
      destruct (for_each keys (convert_key overwrite) (moved T key vals))
        as [T2 [[]|e]]; simpl in *;
        (eapply same_outside_trans; [apply same_outside_moved|exact IH]).
Qed.

Lemma fst_convert_dps_to_dpp keys overwrite T :
  fst (convert_dps_to_dpp keys overwrite T)
  = fst (for_each keys (convert_key overwrite) T).
Proof.
  rewrite convert_dps_to_dpp_run.
  by destruct (for_each keys (convert_key overwrite) T) as [T' [[]|e]].
Qed.

(** X1.  Whatever the list of keys, and whether the call returns or raises,
    [convert_dps_to_dpp] leaves the streamlines, the space, the origin and
    the dimensions as they were, and leaves alone the data_per_streamline
    and data_per_point entries of every key that is not listed. *)
Theorem convert_dps_to_dpp_frame (keys : list string) (overwrite : bool)
    (T : StatefulTractogram) :
  same_outside keys T (fst (convert_dps_to_dpp keys overwrite T)).
Proof. rewrite fst_convert_dps_to_dpp. apply for_each_convert_frame. Qed.

Lemma broadcast_dps_valid (vals : list (list fval)) (strs : list streamline) :
  length vals = length strs ->
  Forall2 (fun (s : streamline) (d : list (list fval)) => length d = length s)
          strs (broadcast_dps vals strs).
Proof.
  revert strs. unfold broadcast_dps.
  induction vals as [|val vals IH]; intros [|s strs] Hlen; simpl in *;
    try done.
  constructor; [apply length_replicate|]. apply IH. lia.
Qed.

Lemma moved_valid key T vals :
  data_per_streamline T !! key = Some vals ->
  dps_valid T /\ dpp_valid T ->
  dps_valid (moved T key vals) /\ dpp_valid (moved T key vals).
Proof.
  intros Hs [Hdps Hdpp]. split.
  - intros k v Hk. simpl in *.
    apply lookup_delete_Some in Hk as [_ Hk]. by apply (Hdps k).
  - intros k seqs Hk. simpl in *.
    apply lookup_insert_Some in Hk as [[<- <-]|[_ Hk]].
    + apply broadcast_dps_valid. by apply (Hdps key).
    + by apply (Hdpp k).
Qed.

(** X2.  [convert_dps_to_dpp] keeps the invariants of the two dictionaries:
    when every data_per_streamline entry has one value per streamline and
    every data_per_point entry one value per point of each streamline, the
    same holds of the tractogram the call leaves, whether it returns or
    raises in the middle of the list. *)
Theorem convert_dps_to_dpp_valid (keys : list string) (overwrite : bool)
    (T : StatefulTractogram) :
  dps_valid T /\ dpp_valid T ->
  dps_valid (fst (convert_dps_to_dpp keys overwrite T)) /\
  dpp_valid (fst (convert_dps_to_dpp keys overwrite T)).
Proof.
  rewrite fst_convert_dps_to_dpp. revert T.
  induction keys as [|key keys IH]; intros T Hvalid; [done|].
  rewrite for_each_cons.
  destruct (convert_key_cases overwrite key T)
    as [(e & -> & _)|(vals & Hs & _ & ->)]; [done|].
  specialize (IH (moved T key vals) (moved_valid key T vals Hs Hvalid)).
  by destruct (for_each keys (convert_key overwrite) (moved T key vals))
    as [T2 [[]|e]].
Qed.

Lemma convert_dps_to_dpp_all_moved (keys : list string) (overwrite : bool)
    (T : StatefulTractogram) :
  NoDup keys ->
  (forall k, k ∈ keys -> is_Some (data_per_streamline T !! k)) ->
  (overwrite = true \/ forall k, k ∈ keys -> data_per_point T !! k = None) ->
  exists T',
    convert_dps_to_dpp keys overwrite T = (T', Ok T') /\
    forall k vals, k ∈ keys -> data_per_streamline T !! k = Some vals ->
      data_per_point T' !! k = Some (broadcast_dps vals (streamlines T)) /\
      data_per_streamline T' !! k = None.
Proof.
  intros Hnodup Hin Hfree.
  cut (exists T', for_each keys (convert_key overwrite) T = (T', Ok tt) /\
         forall k vals, k ∈ keys -> data_per_streamline T !! k = Some vals ->
           data_per_point T' !! k = Some (broadcast_dps vals (streamlines T)) /\
           data_per_streamline T' !! k = None).
  { intros (T' & Hrun & Hkeys). exists T'.
    by rewrite convert_dps_to_dpp_run, Hrun. }
  revert T Hin Hfree.
  induction Hnodup as [|key keys Hnotin Hnodup IH]; intros T Hin Hfree.
  { exists T. split; [done|]. intros k vals Hk. by apply elem_of_nil in Hk. }
  destruct (Hin key) as [vals Hs]; [by left|].
  rewrite for_each_cons.
  rewrite (convert_key_moves overwrite key T vals Hs).
  2:{ destruct Hfree as [->|Hfree]; [by right|left; apply Hfree; by left]. }
  destruct (IH (moved T key vals)) as (T' & Hrun & Hkeys).
  { intros k Hk. simpl. rewrite lookup_delete_ne by (by intros ->).
    apply Hin. by right. }
  { destruct Hfree as [->|Hfree]; [by left|right].
    intros k Hk. simpl. rewrite lookup_insert_ne by (by intros ->).
    apply Hfree. by right. }
  exists T'. split; [done|].
  intros k vals' Hk Hvals'. apply elem_of_cons in Hk as [->|Hk].
  - pose proof (for_each_convert_frame overwrite keys (moved T key vals))
      as (_ & _ & _ & _ & Hout).
    rewrite Hrun in Hout. simpl in Hout. destruct (Hout key Hnotin) as [-> ->].
    rewrite Hs in Hvals'. injection Hvals' as <-.
    split; [apply lookup_insert_eq|apply lookup_delete_eq].
  - apply (Hkeys k vals' Hk). simpl.
    rewrite lookup_delete_ne by (by intros ->). done.
Qed.

Lemma converted_intro (T T' : StatefulTractogram) (key : string)
    (vals : list (list fval)) :
  dps_valid T ->
  data_per_streamline T !! key = Some vals ->
  streamlines T' = streamlines T ->
  data_per_point T' !! key = Some (broadcast_dps vals (streamlines T)) ->
  data_per_streamline T' !! key = None ->
  converted T key T'.
Proof.
  intros Hvalid Hs Hstr Hp Hgone.
  exists vals, (broadcast_dps vals (streamlines T)).
  split; [done|]. split; [done|]. split; [done|].
  intros i s Hi. rewrite Hstr in Hi.
  assert (Hlen : (i < length vals)%nat).
  { rewrite (Hvalid key vals Hs). by eapply lookup_lt_Some. }
  destruct (lookup_lt_is_Some_2 vals i Hlen) as [val Hval].
  exists val, (replicate (length s) val).
  split; [done|]. split; [by apply broadcast_dps_lookup|].
  split; [apply length_replicate|].
  intros j x Hj. by apply lookup_replicate in Hj as [-> _].
Qed.

(** X3.  When the listed keys are distinct, all present in
    data_per_streamline and, unless overwrite is set, all absent from
    data_per_point, [convert_dps_to_dpp] returns the tractogram, its
    streamlines unchanged; every listed key has left data_per_streamline
    and holds in data_per_point, for every streamline, as many values as
    the streamline has points, each of them the value the streamline had
    under that key in data_per_streamline before the call. *)
Theorem convert_dps_to_dpp_all (keys : list string) (overwrite : bool)
    (T : StatefulTractogram) :
  NoDup keys ->
  dps_valid T ->
  (forall k, k ∈ keys -> is_Some (data_per_streamline T !! k)) ->
  (overwrite = true \/ forall k, k ∈ keys -> data_per_point T !! k = None) ->
  exists T',
    convert_dps_to_dpp keys overwrite T = (T', Ok T') /\
    streamlines T' = streamlines T /\
    forall k, k ∈ keys -> converted T k T'.
Proof.
  intros Hnodup Hvalid Hin Hfree.
  destruct (convert_dps_to_dpp_all_moved keys overwrite T Hnodup Hin Hfree)
    as (T' & Hrun & Hkeys).
  assert (Hstr : streamlines T' = streamlines T).
  { pose proof (for_each_convert_frame overwrite keys T) as (Hsame & _).
    rewrite <- fst_convert_dps_to_dpp, Hrun in Hsame. exact Hsame. }
  exists T'. split; [done|]. split; [done|].
  intros k Hk. destruct (Hin k Hk) as [vals Hs].
  destruct (Hkeys k vals Hk Hs) as [Hp Hgone].
  by apply (converted_intro T T' k vals).
Qed.

(** X4.  A call of [convert_dps_to_dpp] that returns was given distinct
    keys, all of them in data_per_streamline before the call and, without
    the overwrite flag, none of them in data_per_point: a key listed twice
    makes the call raise, with or without the flag. *)
Theorem convert_dps_to_dpp_returns (keys : list string) (overwrite : bool)
    (T T' r : StatefulTractogram) :
  convert_dps_to_dpp keys overwrite T = (T', Ok r) ->
  NoDup keys /\
  (forall k, k ∈ keys -> is_Some (data_per_streamline T !! k)) /\
  (overwrite = false -> forall k, k ∈ keys -> data_per_point T !! k = None).
Proof.
  intros Hrun. apply convert_dps_to_dpp_ok in Hrun. clear r.
  revert T Hrun. induction keys as [|key keys IH]; intros T Hrun.
  { split; [constructor|]. split.
    - intros k Hk. by apply elem_of_nil in Hk.
    - intros _ k Hk. by apply elem_of_nil in Hk. }
  rewrite for_each_cons in Hrun.
  destruct (convert_key_cases overwrite key T)
    as [(e & Hraise & _)|(vals & Hs & Hfree & Hmove)].
  { by rewrite Hraise in Hrun. }
  rewrite Hmove in Hrun.
  destruct (IH _ Hrun) as (Hnodup & Hin & Hout). simpl in *.
  assert (Hnotin : key ∉ keys).
  { intros Hk. destruct (Hin key Hk) as [v Hv].
    by rewrite lookup_delete_eq in Hv. }
  split; [by constructor|]. split.
  - intros k Hk. apply elem_of_cons in Hk as [->|Hk]; [by eexists|].
    destruct (Hin k Hk) as [v Hv].
    apply lookup_delete_Some in Hv as [_ Hv]. by eexists.
  - intros -> k Hk. apply elem_of_cons in Hk as [->|Hk].
    + by destruct Hfree.
    + specialize (Hout eq_refl k Hk).
      apply lookup_insert_None in Hout as [Hout _]. done.
Qed.

(** ** A round trip: broadcast, then reduce *)

Lemma fmin_same (x : fval) : fmin x x = x.
Proof. destruct x as [|[]|q]; simpl; try done. by destruct (Qle_bool q q). Qed.

Lemma fmax_same (x : fval) : fmax x x = x.
Proof. destruct x as [|[]|q]; simpl; try done. by destruct (Qle_bool q q). Qed.

Lemma np_min_replicate (n : nat) (x : fval) :
  np_min (replicate (S n) x) = Ok x.
Proof.
  simpl. f_equal. induction n as [|n IH]; simpl; [done|].
  by rewrite fmin_same.
Qed.

Lemma np_max_replicate (n : nat) (x : fval) :
  np_max (replicate (S n) x) = Ok x.
Proof.
  simpl. f_equal. induction n as [|n IH]; simpl; [done|].
  by rewrite fmax_same.
Qed.

Lemma column_replicate (j n : nat) (val : list fval) :
  column j (replicate n val) = replicate n (nth j val NaN).
Proof. unfold column. induction n as [|n IH]; simpl; congruence. Qed.

Lemma map_nth_seq (val : list fval) :
  map (fun j => nth j val NaN) (seq 0 (length val)) = val.
Proof.
  apply list_eq. intros i. rewrite list_lookup_fmap.
  destruct (decide (i < length val)%nat) as [Hi|Hi].
  - rewrite lookup_seq_lt by done. simpl.
    destruct (lookup_lt_is_Some_2 val i Hi) as [x Hx].
    rewrite Hx. f_equal. by apply nth_lookup_Some with (d := NaN) in Hx.
  - rewrite lookup_seq_ge by lia. simpl. symmetry. apply lookup_ge_None. lia.
Qed.

Lemma reduce_constant_rows (f : list fval -> result fval) (n : nat)
    (val : list fval) :
  keeps_constant f ->
  reduce_points (def1 (fun a => squeeze <$> reduce_axis0 f a))
                (replicate (S n) val)
  = Ok (squeeze (A1 val)).
Proof.
  intros Hf. unfold reduce_points, np_asarray, def1.
  change (replicate (S n) val) with (val :: replicate n val) at 1.
  cbn [reduce_axis0]. unfold width. cbn [hd replicate].
  rewrite (collect_map _ _ (fun j => nth j val NaN)).
  - by rewrite map_nth_seq.
  - intros j _. change (val :: replicate n val) with (replicate (S n) val).
    rewrite column_replicate. apply Hf.
Qed.

Lemma collect_broadcast (body : list (list fval) -> result ndarray)
    (g : list fval -> ndarray) (vals : list (list fval))
    (strs : list streamline) :
  length vals = length strs ->
  Forall (fun s : streamline => s <> []) strs ->
  (forall n val, body (replicate (S n) val) = Ok (g val)) ->
  collect (broadcast_dps vals strs) body = Ok (map g vals).
Proof.
  intros Hlen Hne Hbody. revert vals Hlen.
  induction Hne as [|s strs Hs _ IH]; intros [|val vals] Hlen;
    try done.
  destruct s as [|p s]; [done|].
  unfold broadcast_dps in *. cbn [zip_with collect length].
  rewrite Hbody. cbn [mbind result_bind].
  rewrite IH by (simpl in Hlen; lia). done.
Qed.

(** X5.  Round trip.  After [convert_dps_to_dpp(T, [key])] on a tractogram
    whose streamlines all have a point, [perform_operation_dpp_to_dps] with
    'min' or with 'max' on that key gives back, for every streamline, the
    value it had in data_per_streamline (squeezed: a vector of one entry
    comes back as a scalar). *)
Theorem convert_then_reduce (T : StatefulTractogram) (key : string)
    (overwrite : bool) (vals : list (list fval)) (op_name : string) :
  dps_valid T ->
  data_per_streamline T !! key = Some vals ->
  data_per_point T !! key = None \/ overwrite = true ->
  Forall (fun s : streamline => s <> []) (streamlines T) ->
  op_name = "min" \/ op_name = "max" ->
  let T' := fst (convert_dps_to_dpp [key] overwrite T) in
  perform_operation_dpp_to_dps op_name key false T'
  = (T', Ok (map (fun val => squeeze (A1 val)) vals)).
Proof.
  intros Hvalid Hs Hfree Hne Hop T'.
  assert (HT' : T' = moved T key vals).
  { unfold T'. rewrite fst_convert_dps_to_dpp, for_each_cons.
    by rewrite (convert_key_moves overwrite key T vals Hs Hfree). }
  rewrite HT'.
  assert (Hkey : data_per_point (moved T key vals) !! key
                 = Some (broadcast_dps vals (streamlines T)))
    by apply lookup_insert_eq.
  destruct Hop as [-> | ->].
  - rewrite (perform_operation_dpp_to_dps_run _ _ _ _ _ _ OPERATIONS_min Hkey).
    f_equal. apply collect_broadcast; [by apply (Hvalid key)|done|].
    intros n val. apply (reduce_constant_rows np_min).
    intros m x. apply np_min_replicate.
  - rewrite (perform_operation_dpp_to_dps_run _ _ _ _ _ _ OPERATIONS_max Hkey).
    f_equal. apply collect_broadcast; [by apply (Hvalid key)|done|].
    intros n val. apply (reduce_constant_rows np_max).
    intros m x. apply np_max_replicate.
Qed.

(** ** Further properties of [project_map_to_streamlines] *)

Lemma collectM_cons {S A B} (x : A) (xs : list A) (body : A -> M S B) (s : S) :
  collectM (x :: xs) body s =
  match body x s with
  | (s', Ok y) =>
      match collectM xs body s' with
      | (s'', Ok ys) => (s'', Ok (y :: ys))
      | (s'', Raise e) => (s'', Raise e)
      end
  | (s', Raise e) => (s', Raise e)
  end.
Proof.
  simpl. unfold mbind, M_bind. destruct (body x s) as [s' [y|e]]; [|done].
  by destruct (collectM xs body s') as [s'' [ys|e]].
Qed.

Lemma fits_broadcast scalar d a row :
  fits scalar d a row -> broadcast_row d a = Ok row.
Proof.
  destruct scalar; simpl.
  - by intros (x & -> & -> & ->).
  - intros [-> Hlen]. simpl. by rewrite decide_True.
Qed.

Lemma fits_shape scalar d a row :
  fits scalar d a row ->
  shape_of a = (if scalar then [] else [d]) /\ flat a = row /\ length row = d.
Proof.
  destruct scalar; simpl.
  - by intros (x & -> & -> & ->).
  - by intros [-> <-].
Qed.

Lemma collectM_samples (w : world) scalar d (s : streamline)
    (rows : list (list fval)) :
  Forall2 (point_sampled w scalar d) s rows ->
  exists samples,
    collectM s value_at w = (w, Ok samples) /\
    Forall2 (fits scalar d) samples rows.
Proof.
  induction 1 as [|p row s rows (a & Ha & Hfit) _ (samples & Hrun & Hfits)].
  - by exists [].
  - exists (a :: samples). rewrite collectM_cons. unfold value_at at 1.
    rewrite Ha, Hrun. split; [done|by constructor].
Qed.

Lemma entries_of_samples scalar d (samples : list ndarray)
    (rows : list (list fval)) :
  Forall2 (fits scalar d) samples rows ->
  entries_of_list samples = Ok (concat rows) /\
  length samples = length rows /\
  Forall (fun r => length r = d) rows.
Proof.
  intros Hfits.
  assert (Hflat : concat (map flat samples) = concat rows /\
                  length samples = length rows /\
                  Forall (fun r => length r = d) rows /\
                  Forall (fun b => shape_of b = if scalar then [] else [d])
                         samples).
  { induction Hfits as [|a row samples rows Hfit _ (IH1 & IH2 & IH3 & IH4)];
      [done|].
    destruct (fits_shape _ _ _ _ Hfit) as (Hshape & Hfl & Hlen). simpl.
    rewrite Hfl, IH1, IH2. repeat split; try done; by constructor. }
  destruct Hflat as (Hconcat & Hlen & Hrows & Hshapes).
  split; [|done].
  destruct samples as [|a samples]; [by destruct rows|].
  unfold entries_of_list. rewrite decide_True; [by rewrite Hconcat|].
  inversion Hshapes as [|? ? Ha Hrest]; subst.
  eapply Forall_impl; [exact Hrest|]. intros b Hb. simpl in *. congruence.
Qed.

Lemma project_all_points_run (w : world) scalar d (s : streamline)
    (rows : list (list fval)) :
  Forall2 (point_sampled w scalar d) s rows ->
  project_all_points d s w = (w, Ok rows).
Proof.
  intros Hrows.
  destruct (collectM_samples w scalar d s rows Hrows) as (samples & Hrun & Hfits).
  destruct (entries_of_samples scalar d samples rows Hfits)
    as (Hentries & Hlen & Hwidth).
  unfold project_all_points, mbind, M_bind, lift.
  rewrite Hrun, Hentries, Hlen. by rewrite reshape2_rows.
Qed.

Lemma collect_all_points (w : world) (scalar : bool) (d : nat)
    (strs : list streamline) (out : list (list (list fval))) :
  Forall2 (Forall2 (point_sampled w scalar d)) strs out ->
  collectM strs (project_all_points d) w = (w, Ok out).
Proof.
  induction 1 as [|s rows strs out Hrows _ IH]; [done|].
  rewrite collectM_cons.
  rewrite (project_all_points_run w scalar d s rows Hrows). by rewrite IH.
Qed.

(** X6.  With [endpoints_only=False], when the volume answers at every
    point with a value of the channel count (a scalar for one channel, or
    a vector of that many entries), [project_map_to_streamlines] returns
    for every streamline the array whose row [j] is the value of the
    volume at point [j]; a streamline without point gets an empty array. *)
Theorem project_map_to_streamlines_all_points (w : world) (scalar : bool)
    (out : list (list (list fval))) :
  sampled_everywhere w scalar (channel_count (data_shape (snd w))) out ->
  project_map_to_streamlines false w = (w, Ok out).
Proof.
  intros Hout. unfold project_map_to_streamlines.
  unfold mbind at 1, M_bind at 1, gets. unfold mbind at 1, M_bind at 1.
  by apply (collect_all_points w scalar).
Qed.

Lemma project_endpoints_empty (w : world) (d : nat) :
  project_endpoints d [] w = (w, Raise IndexError).
Proof.
  unfold project_endpoints, mbind, M_bind, lift. by rewrite py_index_empty.
Qed.

(** X7.  With [endpoints_only=True], a streamline without point makes
    [project_map_to_streamlines] raise IndexError (the streamlines before
    it having been sampled), tractogram and volume untouched. *)
Theorem project_map_to_streamlines_empty_streamline (w : world)
    (pre rest : list streamline) :
  let d := channel_count (data_shape (snd w)) in
  streamlines (fst w) = pre ++ [] :: rest ->
  Forall (fun s : streamline =>
            exists first final r0 r1,
              s !! 0%nat = Some first /\ last s = Some final /\
              volume_answers w d first r0 /\ volume_answers w d final r1)
         pre ->
  project_map_to_streamlines true w = (w, Raise IndexError).
Proof.
  intros d Hstrs Hpre. unfold project_map_to_streamlines.
  unfold mbind at 1, M_bind at 1, gets. unfold mbind at 1, M_bind at 1.
  fold d. rewrite Hstrs. clear Hstrs.
  induction Hpre as [|s pre (first & final & r0 & r1 & Hf & Hl & H0 & H1) _ IH].
  - cbn [app]. rewrite collectM_cons. by rewrite project_endpoints_empty.
  - cbn [app]. rewrite collectM_cons.
    rewrite (project_endpoints_run w d s first final r0 r1 Hf Hl H0 H1).
    by rewrite IH.
Qed.

Lemma point_sampled_answers w scalar d p row :
  point_sampled w scalar d p row -> volume_answers w d p row.
Proof.
  intros (a & Ha & Hfit). exists a. split; [done|]. by eapply fits_broadcast.
Qed.

Lemma agrees_at_endpoints_run (d : nat) (full : list (list fval))
    (r0 r1 : list fval) :
  full !! 0%nat = Some r0 -> last full = Some r1 ->
  agrees_at_endpoints d full
    (<[(length full - 1)%nat := r1]>
       (<[0%nat := r0]> (replicate (length full) (replicate d NaN)))).
Proof.
  intros H0 H1.
  assert (Hpos : (0 < length full)%nat) by (by eapply lookup_lt_Some).
  rewrite last_lookup in H1.
  replace (pred (length full)) with (length full - 1)%nat in H1 by lia.
  unfold agrees_at_endpoints.
  split; [by rewrite !length_insert, length_replicate|].
  split.
  { destruct (decide (length full - 1 = 0)%nat) as [Heq|Hne].
    - rewrite Heq in *. rewrite list_lookup_insert_eq
        by (rewrite length_insert, length_replicate; lia). congruence.
    - rewrite list_lookup_insert_ne by done.
      rewrite list_lookup_insert_eq by (rewrite length_replicate; lia).
      done. }
  split.
  { rewrite !last_lookup, !length_insert, length_replicate.
    replace (pred (length full)) with (length full - 1)%nat by lia.
    rewrite list_lookup_insert_eq
      by (rewrite length_insert, length_replicate; lia). done. }
  split.
  { intros j Hj. rewrite !list_lookup_insert_ne by lia.
    apply lookup_replicate. split; [done|lia]. }
  intros Hshort. apply list_eq. intros i.
  destruct (decide (i = length full - 1)%nat) as [->|Hi].
  { rewrite list_lookup_insert_eq
      by (rewrite length_insert, length_replicate; lia). done. }
  rewrite list_lookup_insert_ne by done.
  destruct (decide (i = 0)%nat) as [->|Hi0].
  { rewrite list_lookup_insert_eq by (rewrite length_replicate; lia). done. }
  rewrite list_lookup_insert_ne by done.
  transitivity (@None (list fval)).
  - apply lookup_ge_None. rewrite length_replicate. lia.
  - symmetry. apply lookup_ge_None. lia.
Qed.

(** X8.  The two modes of [project_map_to_streamlines] agree at the
    endpoints.  When the volume answers at every point with a value of the
    channel count and every streamline has a point, the endpoints-only
    call returns arrays of the lengths of the full ones, equal to them at
    index 0 and at index -1 and NaN in between; for a streamline of one or
    two points the two arrays are equal. *)
Theorem project_map_to_streamlines_modes (w : world) (scalar : bool)
    (out : list (list (list fval))) :
  let d := channel_count (data_shape (snd w)) in
  sampled_everywhere w scalar d out ->
  Forall (fun s : streamline => s <> []) (streamlines (fst w)) ->
  project_map_to_streamlines false w = (w, Ok out) /\
  exists out_e,
    project_map_to_streamlines true w = (w, Ok out_e) /\
    Forall2 (agrees_at_endpoints d) out out_e.
Proof.
  intros d Hout Hne. unfold project_map_to_streamlines.
  unfold mbind at 1 3, M_bind at 1 3, gets.
  unfold mbind at 1 2, M_bind at 1 2. fold d.
  split; [by apply (collect_all_points w scalar)|].
  unfold sampled_everywhere in Hout.
  induction Hout as [|s rows strs out Hrows _ IH]; [by exists []|].
  inversion Hne as [|? ? Hs Hne']; subst.
  destruct (IH Hne') as (out_e & Hrun & Hagree).
  destruct s as [|p s]; [done|].
  destruct (last (p :: s)) as [final|] eqn:Hlast.
  2:{ by apply last_None in Hlast. }
  assert (Hlen : length (p :: s) = length rows) by (by eapply Forall2_length).
  destruct rows as [|r0 rows']; [done|].
  destruct (last (r0 :: rows')) as [r1|] eqn:Hlast'.
  2:{ by apply last_None in Hlast'. }
  assert (H0 : point_sampled w scalar d p r0) by (by inversion Hrows).
  assert (H1 : point_sampled w scalar d final r1).
  { rewrite last_lookup in Hlast. rewrite last_lookup in Hlast'.
    rewrite <- Hlen in Hlast'. by eapply Forall2_lookup_lr. }
  eexists. rewrite collectM_cons.
  rewrite (project_endpoints_run w d (p :: s) p final r0 r1 eq_refl Hlast
             (point_sampled_answers _ _ _ _ _ H0)
             (point_sampled_answers _ _ _ _ _ H1)).
  rewrite Hrun. split; [reflexivity|]. constructor; [|done].
  rewrite Hlen. by apply agrees_at_endpoints_run.
Qed.

(** ** Further properties of [project_dpp_to_map] *)

Lemma Qplus_0_l_eq (q : Q) : (0 + q)%Q = q.
Proof.
  destruct q as [n d]. unfold Qplus. simpl. f_equal. lia.
Qed.

Lemma fadd_0_l (x : fval) : fadd (Num 0) x = x.
Proof. destruct x as [|s|q]; simpl; try done. by rewrite Qplus_0_l_eq. Qed.

Lemma of_nat_succ (k : nat) : fadd (of_nat k) (Num 1) = of_nat (S k).
Proof.
  unfold of_nat, fadd, inject_Z, Qplus. simpl. f_equal. f_equal. lia.
Qed.

Lemma np_sum_snoc (vals : list fval) (v : fval) :
  np_sum (vals ++ [v]) = fadd (np_sum vals) v.
Proof. unfold np_sum. by rewrite foldl_app. Qed.

Lemma cell_values_snoc (log : list (nat * fval)) (o : nat) (v : fval)
    (o' : nat) :
  cell_values (log ++ [(o, v)]) o'
  = cell_values log o' ++ (if decide (o = o') then [v] else []).
Proof.
  unfold cell_values. rewrite filter_app, map_app. f_equal.
  rewrite filter_cons. simpl. by case_decide.
Qed.

Lemma grid_of_lookup shape f o :
  (o < grid_size shape)%nat -> g_data (grid_of shape f) !! o = Some (f o).
Proof.
  intros Ho. unfold grid_of. simpl. rewrite list_lookup_fmap.
  by rewrite lookup_seq_lt.
Qed.

Lemma grid_of_insert shape (f g : nat -> fval) (o : nat) (x : fval) :
  g o = x -> (forall o', o' <> o -> g o' = f o') ->
  mk_grid shape (<[o := x]> (g_data (grid_of shape f))) = grid_of shape g.
Proof.
  intros Ho Hother. unfold grid_of. simpl. f_equal.
  apply list_eq. intros i.
  destruct (decide (i < grid_size shape)%nat) as [Hi|Hi].
  - destruct (decide (i = o)) as [->|Hne].
    + rewrite list_lookup_insert_eq by (by rewrite length_map, length_seq).
      rewrite list_lookup_fmap, lookup_seq_lt by done. simpl. by rewrite Ho.
    + rewrite list_lookup_insert_ne by done.
      rewrite !list_lookup_fmap, lookup_seq_lt by done. simpl.
      by rewrite Hother.
  - rewrite !(proj2 (lookup_ge_None _ _));
      rewrite ?length_insert, ?length_map, ?length_seq; try lia. done.
Qed.

Lemma summed_zeros shape : summed shape [] (np_zeros shape, np_zeros shape).
Proof.
  unfold summed, np_zeros, grid_of. simpl. split; f_equal.
  - induction (grid_size shape) as [|n IH] using nat_ind; [done|].
    rewrite seq_S, map_app. simpl. rewrite <- IH.
    clear IH. induction n as [|n IH]; simpl; [done|]. by rewrite IH.
  - induction (grid_size shape) as [|n IH] using nat_ind; [done|].
    rewrite seq_S, map_app. simpl. rewrite <- IH.
    clear IH. induction n as [|n IH]; simpl; [done|]. by rewrite IH.
Qed.

(** One visit, run forward. *)
Lemma visit_run sft dpp_key s p o v log acc :
  summed (dimensions sft) log acc ->
  point_offset sft s p = Some o ->
  dpp_value sft dpp_key s p = Some v ->
  exists acc', visit sft dpp_key s p acc = Ok acc' /\
               summed (dimensions sft) (log ++ [(o, v)]) acc'.
Proof.
  destruct acc as [count the_map]. intros [Hc Hm] Ho Hv. simpl in Hc, Hm.
  subst count the_map.
  unfold point_offset in Ho. unfold dpp_value in Hv. unfold visit.
  destruct (py_index (streamlines sft) (Z.of_nat s)) as [strm|]; [|done].
  cbn [mbind result_bind].
  destruct (py_index strm p) as [pt|]; [|done].
  cbn [mbind result_bind]. unfold voxel_of in *.
  destruct (grid_offset (dimensions sft) (astype_int (px pt))
              (astype_int (py pt)) (astype_int (pz pt))) as [o'|] eqn:Hoff;
    [|done].
  injection Ho as ->.
  pose proof (grid_offset_lt _ _ _ _ _ Hoff) as Hlt.
  unfold dict_get in Hv.
  destruct (data_per_point sft !! dpp_key) as [seqs|] eqn:Hkey; [|done].
  destruct (py_index seqs (Z.of_nat s)) as [d|] eqn:Hd; [|done].
  destruct (py_index d p) as [[|v0 [|v1 vs]]|] eqn:Hp; try done.
  injection Hv as ->.
  unfold grid_get, grid_set, grid_set_array.
  cbn [g_shape grid_of]. rewrite Hoff. cbn [mbind result_bind].
  rewrite !grid_of_lookup by done. cbn [mbind result_bind].
  rewrite (sliceable_get_entry _ _ _ Hkey). cbn [mbind result_bind point_value].
  rewrite Hd. cbn [mbind result_bind]. rewrite Hp.
  cbn [mbind result_bind map g_shape].
  unfold grid_set. cbn [g_shape grid_of]. rewrite Hoff.
  cbn [mbind result_bind].
  eexists. split; [reflexivity|]. split; cbn [fst snd].
  - apply grid_of_insert.
    + rewrite cell_values_snoc, decide_True by done.
      rewrite length_app. simpl. rewrite Nat.add_1_r.
      symmetry. apply of_nat_succ.
    + intros o' Hne. rewrite cell_values_snoc, decide_False by done.
      by rewrite app_nil_r.
  - apply grid_of_insert.
    + rewrite cell_values_snoc, decide_True by done. apply np_sum_snoc.
    + intros o' Hne. rewrite cell_values_snoc, decide_False by done.
      by rewrite app_nil_r.
Qed.

Lemma visits_run sft dpp_key (points : list (nat * Z))
    (log0 log : list (nat * fval)) acc :
  summed (dimensions sft) log0 acc ->
  Forall2 (fun (sp : nat * Z) (ov : nat * fval) =>
             point_offset sft sp.1 sp.2 = Some ov.1 /\
             dpp_value sft dpp_key sp.1 sp.2 = Some ov.2) points log ->
  exists acc',
    fold_loop points (fun sp => visit sft dpp_key sp.1 sp.2) acc = Ok acc' /\
    summed (dimensions sft) (log0 ++ log) acc'.
Proof.
  intros Hacc Hlog. revert log0 acc Hacc.
  induction Hlog as [|[s p] [o v] points log [Ho Hv] _ IH]; intros log0 acc Hacc.
  - exists acc. split; [done|]. by rewrite app_nil_r.
  - simpl in Ho, Hv.
    destruct (visit_run sft dpp_key s p o v log0 acc Hacc Ho Hv)
      as (acc1 & Hvisit & Hacc1).
    destruct (IH _ _ Hacc1) as (acc' & Hrun & Hacc').
    exists acc'. cbn [fold_loop fst snd]. rewrite Hvisit.
    cbn [mbind result_bind]. split; [done|].
    by rewrite cons_middle, app_assoc.
Qed.

Lemma accumulate_recorded sft dpp_key endpoints_only log :
  recorded sft dpp_key endpoints_only log ->
  accumulate sft dpp_key endpoints_only
  = Ok (grid_of (dimensions sft) (fun o => of_nat (length (cell_values log o))),
        grid_of (dimensions sft) (fun o => np_sum (cell_values log o))).
Proof.
  intros Hlog. rewrite accumulate_selected.
  destruct (visits_run sft dpp_key _ [] log _ (summed_zeros _) Hlog)
    as ([count the_map] & Hrun & Hc & Hm).
  simpl in Hc, Hm. by rewrite Hrun, Hc, Hm.
Qed.

Lemma fmax_count (k : nat) :
  fmax (of_nat (S k)) (Num Qeps) = of_nat (S k).
Proof.
  unfold of_nat, fmax, fleb.
  assert (H : Qle_bool (inject_Z (Z.of_nat (S k))) Qeps = false).
  { apply not_true_iff_false. intros H. apply Qle_bool_iff in H.
    unfold Qle, inject_Z, Qeps in H. simpl in H. lia. }
  by rewrite H.
Qed.

Lemma divide_by_count (vals : list fval) :
  fdiv (np_sum vals) (fmax (of_nat (length vals)) (Num Qeps)) = cell_mean vals.
Proof.
  destruct vals as [|v vals]; [reflexivity|].
  cbn [length]. rewrite fmax_count. reflexivity.
Qed.

Lemma project_dpp_to_map_cells_aux (dpp_key : string) (endpoints_only : bool)
    (sft : StatefulTractogram) (log : list (nat * fval)) :
  recorded (to_corner (to_vox sft)) dpp_key endpoints_only log ->
  project_dpp_to_map dpp_key true endpoints_only sft
    = (to_corner (to_vox sft),
       Ok (grid_of (dimensions sft) (fun o => np_sum (cell_values log o)))) /\
  accumulate (to_corner (to_vox sft)) dpp_key endpoints_only
    = Ok (grid_of (dimensions sft)
            (fun o => of_nat (length (cell_values log o))),
          grid_of (dimensions sft) (fun o => np_sum (cell_values log o))).
Proof.
  intros Hlog. rewrite project_dpp_to_map_run.
  by rewrite (accumulate_recorded _ dpp_key endpoints_only log Hlog).
Qed.

(** X9.  Let every selected point fall in the grid and carry one value
    under the key, [log] listing cells and values in the order of the
    loops.  Then [project_dpp_to_map] returns with [sum_lines=True] the
    map whose cells hold the sum of the values that fell in them, and with
    [sum_lines=False] the map whose cells hold their mean, zero where no
    point fell; the tractogram is left converted. *)
Theorem project_dpp_to_map_cells (dpp_key : string) (endpoints_only : bool)
    (sft : StatefulTractogram) (log : list (nat * fval)) :
  let sft' := to_corner (to_vox sft) in
  recorded sft' dpp_key endpoints_only log ->
  project_dpp_to_map dpp_key true endpoints_only sft
    = (sft', Ok (grid_of (dimensions sft)
                   (fun o => np_sum (cell_values log o)))) /\
  project_dpp_to_map dpp_key false endpoints_only sft
    = (sft', Ok (grid_of (dimensions sft)
                   (fun o => cell_mean (cell_values log o)))).
Proof.
  intros sft' Hlog.
  destruct (project_dpp_to_map_cells_aux dpp_key endpoints_only sft log Hlog)
    as [Hsum Hacc].
  split; [exact Hsum|].
  rewrite project_dpp_to_map_run, Hacc. fold sft'.
  cbn [negb]. f_equal. f_equal.
  unfold grid_divide, grid_maximum, grid_of. cbn [g_shape g_data].
  f_equal. rewrite map_map.
  generalize (seq 0 (grid_size (dimensions sft))). intros cells.
  induction cells as [|o os IH]; [done|].
  cbn [map zip_with]. rewrite divide_by_count. f_equal. apply IH.
Qed.



Lemma norm_index_cases (n : nat) (i : Z) :
  (exists k, norm_index n i = Ok k) \/ norm_index n i = Raise IndexError.
Proof. unfold norm_index. repeat case_decide; eauto. Qed.




Lemma first_visit_raises sft dpp_key endpoints_only s p others e :
  selected sft endpoints_only = (s, p) :: others ->
  visit sft dpp_key s p (np_zeros (dimensions sft), np_zeros (dimensions sft))
    = Raise e ->
  accumulate sft dpp_key endpoints_only = Raise e.
Proof.
  intros Hsel Hvisit. rewrite accumulate_selected, Hsel.
  cbn [fold_loop fst snd]. by rewrite Hvisit.
Qed.


(** X11.  [project_dpp_to_map] takes one value per point.  When the first
    selected point falls in the grid and carries under the key a vector
    whose length is not one, the call raises ValueError (an array cannot
    be stored in a cell of the map). *)
Theorem project_dpp_to_map_vector (dpp_key : string)
    (sum_lines endpoints_only : bool) (sft : StatefulTractogram)
    (s : nat) (p : Z) (others : list (nat * Z))
    (seqs : list (list (list fval))) (d : list (list fval)) (v : list fval) :
  let sft' := to_corner (to_vox sft) in
  selected sft' endpoints_only = (s, p) :: others ->
  is_Some (point_offset sft' s p) ->
  data_per_point sft !! dpp_key = Some seqs ->
  py_index seqs (Z.of_nat s) = Ok d ->
  py_index d p = Ok v ->
  length v <> 1%nat ->
  project_dpp_to_map dpp_key sum_lines endpoints_only sft
    = (sft', Raise not_a_scalar).
Proof.
  intros sft' Hsel [o Ho] Hkey Hd Hv Hlen.
  rewrite project_dpp_to_map_run. fold sft'.
  rewrite (first_visit_raises sft' dpp_key endpoints_only s p others
             not_a_scalar Hsel); [done|].
  unfold point_offset in Ho. unfold visit.
  destruct (py_index (streamlines sft') (Z.of_nat s)) as [strm|]; [|done].
  cbn [mbind result_bind].
  destruct (py_index strm p) as [pt|]; [|done].
  cbn [mbind result_bind]. unfold voxel_of in *.
  destruct (grid_offset (dimensions sft') (astype_int (px pt))
              (astype_int (py pt)) (astype_int (pz pt))) as [o'|] eqn:Hoff;
    [|done].
  pose proof (grid_offset_lt _ _ _ _ _ Hoff) as Hlt.
  unfold grid_get, grid_set, dict_get, np_zeros. cbn [g_shape g_data].
  rewrite Hoff. cbn [mbind result_bind g_shape g_data].
  rewrite lookup_replicate_2 by done. cbn [mbind result_bind].
  change (data_per_point sft') with (data_per_point sft).
  rewrite (sliceable_get_entry _ _ _ Hkey). cbn [mbind result_bind point_value].
  rewrite Hd. cbn [mbind result_bind]. rewrite Hv.
  cbn [mbind result_bind]. unfold grid_set_array.
  destruct v as [|v0 [|v1 v]]; simpl in *; done.
Qed.

Lemma py_index_singleton_last {A} (x : A) : py_index [x] (-1) = Ok x.
Proof. by apply py_index_last. Qed.

(** X12.  A streamline of a single point is visited twice in
    endpoints-only mode (as index 0 and as index -1).  For a tractogram
    made of one such streamline, whose point falls in the grid and carries
    the value [v], [sum_lines=True] gives [v + v] in its cell with
    [endpoints_only=True] and [v] with [endpoints_only=False]. *)
Theorem project_dpp_to_map_single_point_twice (dpp_key : string)
    (sft : StatefulTractogram) (pt : point) (v : fval) (o : nat) :
  let sft' := to_corner (to_vox sft) in
  streamlines sft' = [[pt]] ->
  data_per_point sft !! dpp_key = Some [[[v]]] ->
  point_offset sft' 0 0 = Some o ->
  project_dpp_to_map dpp_key true true sft
    = (sft', Ok (one_cell (dimensions sft) o (fadd v v))) /\
  project_dpp_to_map dpp_key true false sft
    = (sft', Ok (one_cell (dimensions sft) o v)).
Proof.
  intros sft' Hstrs Hkey Ho.
  assert (Ho' : point_offset sft' 0 (-1) = Some o).
  { unfold point_offset in *. rewrite Hstrs in *.
    rewrite (py_index_lookup [[pt]] 0 [pt] eq_refl) in *.
    rewrite py_index_singleton_last.
    by rewrite (py_index_first [pt] pt eq_refl) in Ho. }
  assert (Hv : forall p, p = 0 \/ p = -1 ->
                 dpp_value sft' dpp_key 0 p = Some v).
  { intros p Hp. unfold dpp_value, dict_get.
    change (data_per_point sft') with (data_per_point sft). rewrite Hkey.
    rewrite (py_index_lookup [[[v]]] 0 [[v]] eq_refl).
    destruct Hp as [-> | ->]; [|by rewrite py_index_singleton_last].
    by rewrite (py_index_first [[v]] [v] eq_refl). }
  assert (Hcells : forall (log : list (nat * fval)) (x : fval),
    (forall o', np_sum (cell_values log o')
                = if decide (o' = o) then x else Num 0) ->
    grid_of (dimensions sft) (fun o' => np_sum (cell_values log o'))
    = one_cell (dimensions sft) o x).
  { intros log x Hlog. unfold one_cell, grid_of. f_equal.
    apply map_ext. intros o'. apply Hlog. }
  split.
  - destruct (project_dpp_to_map_cells_aux dpp_key true sft [(o, v); (o, v)])
      as [-> _].
    { unfold recorded, selected. fold sft'. rewrite Hstrs. simpl.
      repeat constructor; simpl; auto. }
    f_equal. f_equal. apply Hcells. intros o'. unfold cell_values.
    rewrite !filter_cons, filter_nil. cbn [fst].
    destruct (decide (o = o')) as [<-|Hne].
    + rewrite decide_True by done. unfold np_sum. cbn [map snd foldl].
      by rewrite fadd_0_l.
    + by rewrite decide_False by congruence.
  - destruct (project_dpp_to_map_cells_aux dpp_key false sft [(o, v)])
      as [-> _].
    { unfold recorded, selected. fold sft'. rewrite Hstrs. simpl.
      repeat constructor; simpl; auto. }
    f_equal. f_equal. apply Hcells. intros o'. unfold cell_values.
    rewrite !filter_cons, filter_nil. cbn [fst].
    destruct (decide (o = o')) as [<-|Hne].
    + rewrite decide_True by done. unfold np_sum. cbn [map snd foldl].
      by rewrite fadd_0_l.
    + by rewrite decide_False by congruence.
Qed.

(** ** Further properties of the functions that take an operator *)

Lemma OPERATIONS_unknown op_name :
  op_name ∉ operator_names -> OPERATIONS !! op_name = None.
Proof.
  intros Hnot. apply not_elem_of_dom. rewrite OPERATIONS_names.
  intros Hin. apply Hnot. unfold operator_names.
  repeat (apply elem_of_union in Hin as [Hin|Hin]);
    apply elem_of_singleton in Hin as ->;
    repeat (first [by apply list_elem_of_here | apply list_elem_of_further]).
Qed.

Lemma OPERATIONS_known op_name :
  op_name ∈ operator_names -> is_Some (OPERATIONS !! op_name).
Proof.
  intros Hin. apply elem_of_dom. rewrite OPERATIONS_names.
  unfold operator_names in Hin.
  repeat (apply elem_of_cons in Hin as [->|Hin]); [set_solver..|].
  by apply elem_of_nil in Hin.
Qed.

(** X13.  The three functions that take an operator name look the operator
    up before they read the tractogram: a name outside the registry makes
    each of them raise KeyError for that name, whatever the data_per_point
    key.  With a registered name and an absent data_per_point key, each
    raises KeyError for the key when data_per_point holds some other key;
    when data_per_point holds no key at all the lookup gives a dictionary
    without entry, the loops have nothing to go through and each returns
    the empty list.  The tractogram is untouched. *)
Theorem perform_lookup_errors (op_name dpp_name : string)
    (endpoints_only : bool) (sft : StatefulTractogram) :
  (op_name ∉ operator_names ->
   Forall (fun r => r = (sft, Raise (KeyError op_name)))
          (perform_outcomes op_name dpp_name endpoints_only sft)) /\
  (op_name ∈ operator_names ->
   data_per_point sft !! dpp_name = None ->
   data_per_point sft <> ∅ ->
   Forall (fun r => r = (sft, Raise (KeyError dpp_name)))
          (perform_outcomes op_name dpp_name endpoints_only sft)) /\
  (op_name ∈ operator_names ->
   data_per_point sft = ∅ ->
   perform_operation_on_dpp op_name dpp_name endpoints_only sft
     = (sft, Ok []) /\
   perform_operation_dpp_to_dps op_name dpp_name endpoints_only sft
     = (sft, Ok []) /\
   perform_pairwise_streamline_operation_on_endpoints op_name dpp_name sft
     = (sft, Ok [])).
Proof.
  split; [|split].
  - intros Hnot. apply OPERATIONS_unknown in Hnot.
    unfold perform_outcomes, perform_operation_on_dpp,
      perform_operation_dpp_to_dps,
      perform_pairwise_streamline_operation_on_endpoints,
      mbind, M_bind, lift, dict_get.
    rewrite Hnot. by repeat constructor.
  - intros Hin Hkey Hdpp.
    destruct (OPERATIONS_known op_name Hin) as [call Hcall].
    unfold perform_outcomes, perform_operation_on_dpp,
      perform_operation_dpp_to_dps,
      perform_pairwise_streamline_operation_on_endpoints,
      mbind, M_bind, lift, gets, dict_get.
    rewrite Hcall, (sliceable_get_missing _ _ Hkey Hdpp).
    by repeat constructor.
  - intros Hin Hdpp.
    destruct (OPERATIONS_known op_name Hin) as [call Hcall].
    unfold perform_operation_on_dpp, perform_operation_dpp_to_dps,
      perform_pairwise_streamline_operation_on_endpoints,
      mbind, M_bind, lift, gets, dict_get.
    rewrite Hcall, (sliceable_get_empty _ dpp_name Hdpp).
    by destruct endpoints_only.
Qed.

Lemma perform_operation_on_dpp_run op_name call_op dpp_name
    endpoints_only sft seqs :
  OPERATIONS !! op_name = Some call_op ->
  data_per_point sft !! dpp_name = Some seqs ->
  perform_operation_on_dpp op_name dpp_name endpoints_only sft
  = (sft, if endpoints_only then collect seqs (operate_on_endpoints call_op)
          else collect seqs (operate_on_points call_op)).
Proof.
  intros Hop Hkey.
  unfold perform_operation_on_dpp, mbind, M_bind, lift, gets, dict_get.
  rewrite Hop, (sliceable_get_entry _ _ _ Hkey). by destruct endpoints_only.
Qed.

Lemma reducer_lookup op_name f :
  (op_name, f) ∈ reducers ->
  OPERATIONS !! op_name = Some (def1 (fun a => squeeze <$> reduce_axis0 f a))
  /\ total_on_values f.
Proof.
  intros Hin. split.
  - pose proof OPERATIONS_reducers as H. rewrite Forall_forall in H.
    apply (H _ Hin).
  - pose proof reducers_total as H. rewrite Forall_forall in H.
    apply (H _ Hin).
Qed.

Lemma reducer_on_vector (f : list fval -> result fval) (p : list fval)
    (x : fval) :
  f p = Ok x ->
  def1 (fun a => squeeze <$> reduce_axis0 f a) [A1 p] = Ok (A0 x).
Proof. intros Hx. simpl. by rewrite Hx. Qed.

Lemma reduce_vectors (f : list fval -> result fval) (s : list (list fval)) :
  total_on_values f -> Forall (fun p => p <> []) s ->
  exists xs, Forall2 (fun p x => f p = Ok x) s xs.
Proof.
  intros Hf. induction 1 as [|p s Hp _ (xs & Hxs)]; [by exists []|].
  destruct (Hf p Hp) as [x Hx]. exists (x :: xs). by constructor.
Qed.

Lemma operate_on_points_run (f : list fval -> result fval)
    (s : list (list fval)) (xs : list fval) :
  Forall2 (fun p x => f p = Ok x) s xs ->
  operate_on_points (def1 (fun a => squeeze <$> reduce_axis0 f a)) s
  = Ok (map (fun x => [x]) xs).
Proof.
  intros Hxs. unfold operate_on_points.
  assert (Hcollect :
    collect s (fun p => def1 (fun a => squeeze <$> reduce_axis0 f a) [A1 p])
    = Ok (map A0 xs)).
  { induction Hxs as [|p x s xs Hx _ IH]; [done|].
    cbn [collect]. rewrite (reducer_on_vector f p x Hx).
    cbn [mbind result_bind]. rewrite IH. done. }
  rewrite Hcollect. cbn [mbind result_bind].
  destruct (entries_of_samples true 1 (map A0 xs) (map (fun x => [x]) xs))
    as (Hentries & Hlen & Hrows).
  { clear. induction xs as [|x xs IH]; constructor; [|done].
    simpl. by exists x. }
  rewrite Hentries. cbn [mbind result_bind]. rewrite Hlen.
  by apply reshape2_rows.
Qed.

Lemma collect_Forall2 {A B} (xs : list A) (ys : list B)
    (body : A -> result B) :
  Forall2 (fun x y => body x = Ok y) xs ys -> collect xs body = Ok ys.
Proof.
  induction 1 as [|x y xs ys Hy _ IH]; [done|].
  cbn [collect]. rewrite Hy. cbn [mbind result_bind]. by rewrite IH.
Qed.

Lemma reduce_all_vectors (f : list fval -> result fval)
    (seqs : list (list (list fval))) :
  total_on_values f -> Forall (Forall (fun p => p <> [])) seqs ->
  exists xss, Forall2 (Forall2 (fun p x => f p = Ok x)) seqs xss.
Proof.
  intros Hf. induction 1 as [|s seqs Hs _ (xss & Hxss)]; [by exists []|].
  destruct (reduce_vectors f s Hf Hs) as [xs Hxs].
  exists (xs :: xss). by constructor.
Qed.

(** X14.  With [endpoints_only=False] and one of 'mean', 'sum', 'min',
    'max', on a data_per_point entry whose vectors all have an entry,
    [perform_operation_on_dpp] returns for every streamline one row per
    point, each row holding the single value the operator gives for the
    vector of that point: data fit for a new data_per_point key. *)
Theorem perform_operation_on_dpp_points (op_name : string)
    (f : list fval -> result fval) (dpp_name : string)
    (sft : StatefulTractogram) (seqs : list (list (list fval))) :
  (op_name, f) ∈ reducers ->
  data_per_point sft !! dpp_name = Some seqs ->
  Forall (Forall (fun p => p <> [])) seqs ->
  exists out,
    perform_operation_on_dpp op_name dpp_name false sft = (sft, Ok out) /\
    Forall2 (Forall2 (reduced_row f)) seqs out.
Proof.
  intros Hin Hkey Hne. destruct (reducer_lookup op_name f Hin) as [Hop Hf].
  destruct (reduce_all_vectors f seqs Hf Hne) as [xss Hxss].
  exists (map (map (fun x => [x])) xss).
  rewrite (perform_operation_on_dpp_run _ _ _ _ _ _ Hop Hkey).
  split.
  - f_equal. apply collect_Forall2.
    clear Hkey Hne. induction Hxss as [|s xs seqs xss Hxs _ IH]; [constructor|].
    constructor; [by apply operate_on_points_run|done].
  - clear Hkey Hne. induction Hxss as [|s xs seqs xss Hxs _ IH]; [constructor|].
    constructor; [|done]. clear IH.
    induction Hxs as [|p x s xs Hx _ IH]; constructor; [|done]. by exists x.
Qed.

Lemma operate_on_endpoints_run (f : list fval -> result fval)
    (s : list (list fval)) (first final : list fval) (x0 x1 : fval) :
  s !! 0%nat = Some first -> last s = Some final ->
  f first = Ok x0 -> f final = Ok x1 ->
  operate_on_endpoints (def1 (fun a => squeeze <$> reduce_axis0 f a)) s
  = Ok (<[(length s - 1)%nat := [x1]]>
          (<[0%nat := [x0]]> (replicate (length s) (replicate 1 NaN)))).
Proof.
  intros Hfirst Hlast H0 H1.
  assert (Hpos : (0 < length s)%nat) by (by eapply lookup_lt_Some).
  unfold operate_on_endpoints. rewrite scale_ones_nan.
  rewrite (py_index_first s first Hfirst). cbn [mbind result_bind].
  rewrite (reducer_on_vector f first x0 H0). cbn [mbind result_bind].
  rewrite (setitem_row_ok 1 _ 0 0%nat (A0 x0) [x0]);
    [|rewrite length_replicate; by apply (norm_index_nonneg _ 0)|done].
  cbn [mbind result_bind].
  rewrite (py_index_last s final Hlast). cbn [mbind result_bind].
  rewrite (reducer_on_vector f final x1 H1). cbn [mbind result_bind].
  rewrite (setitem_row_ok 1 _ (-1) (length s - 1)%nat (A0 x1) [x1]);
    [|rewrite length_insert, length_replicate; by apply norm_index_minus_one
     |done].
  cbn [mbind result_bind]. apply reshape2_rows.
  apply Forall_insert; [|done]. apply Forall_insert; [|done].
  apply Forall_replicate, length_replicate.
Qed.

(** X15.  With one of 'mean', 'sum', 'min', 'max', on a data_per_point
    entry whose streamlines all have a point and whose vectors all have an
    entry, the two modes of [perform_operation_on_dpp] return arrays of
    the same lengths; the endpoints-only array holds the value of the full
    one at index 0 and at index -1 and NaN in between. *)
Theorem perform_operation_on_dpp_modes (op_name : string)
    (f : list fval -> result fval) (dpp_name : string)
    (sft : StatefulTractogram) (seqs : list (list (list fval))) :
  (op_name, f) ∈ reducers ->
  data_per_point sft !! dpp_name = Some seqs ->
  Forall (fun s => s <> []) seqs ->
  Forall (Forall (fun p => p <> [])) seqs ->
  exists out out_e,
    perform_operation_on_dpp op_name dpp_name false sft = (sft, Ok out) /\
    perform_operation_on_dpp op_name dpp_name true sft = (sft, Ok out_e) /\
    Forall2 (agrees_at_endpoints 1) out out_e.
Proof.
  intros Hin Hkey Hpoints Hne. destruct (reducer_lookup op_name f Hin) as [Hop Hf].
  destruct (reduce_all_vectors f seqs Hf Hne) as [xss Hxss].
  rewrite !(perform_operation_on_dpp_run _ _ _ _ _ _ Hop Hkey).
  clear Hkey Hne.
  cut (exists out out_e,
         collect seqs (operate_on_points
           (def1 (fun a => squeeze <$> reduce_axis0 f a))) = Ok out /\
         collect seqs (operate_on_endpoints
           (def1 (fun a => squeeze <$> reduce_axis0 f a))) = Ok out_e /\
         Forall2 (agrees_at_endpoints 1) out out_e).
  { intros (out & out_e & -> & -> & Hagree). by exists out, out_e. }
  induction Hxss as [|s xs seqs xss Hxs _ IH].
  { exists [], []. repeat split; constructor. }
  inversion Hpoints as [|? ? Hs Hpoints']; subst.
  destruct (IH Hpoints') as (out & out_e & Hout & Houte & Hagree).
  destruct s as [|first s]; [done|].
  destruct (last (first :: s)) as [final|] eqn:Hlast.
  2:{ by apply last_None in Hlast. }
  assert (Hlen : length (first :: s) = length xs) by (by eapply Forall2_length).
  destruct xs as [|x0 xs']; [done|].
  destruct (last (x0 :: xs')) as [x1|] eqn:Hlast'.
  2:{ by apply last_None in Hlast'. }
  assert (H0 : f first = Ok x0) by (by inversion Hxs).
  assert (H1 : f final = Ok x1).
  { rewrite last_lookup in Hlast. rewrite last_lookup in Hlast'.
    rewrite <- Hlen in Hlast'.
    by apply (Forall2_lookup_lr _ _ _ _ _ _ Hxs Hlast Hlast'). }
  eexists _, _. cbn [collect].
  rewrite (operate_on_points_run f (first :: s) (x0 :: xs') Hxs).
  rewrite (operate_on_endpoints_run f (first :: s) first final x0 x1
             eq_refl Hlast H0 H1).
  cbn [mbind result_bind]. rewrite Hout, Houte. cbn [mbind result_bind].
  split; [reflexivity|]. split; [reflexivity|].
  constructor; [|done].
  replace (length (first :: s)) with (length (map (fun x => [x]) (x0 :: xs')))
    by (by rewrite length_map).
  apply agrees_at_endpoints_run; [done|].
  rewrite last_lookup in Hlast'. rewrite last_lookup, length_map.
  by rewrite list_lookup_fmap, Hlast'.
Qed.

(** X16.  'correlation' takes two arrays.  On a data_per_point entry whose
    first streamline has a point, [perform_operation_on_dpp] and
    [perform_operation_dpp_to_dps] call it with one and raise TypeError,
    in both modes. *)
Theorem perform_operation_correlation (dpp_name : string)
    (endpoints_only : bool) (sft : StatefulTractogram)
    (p : list fval) (s : list (list fval)) (rest : list (list (list fval))) :
  data_per_point sft !! dpp_name = Some ((p :: s) :: rest) ->
  perform_operation_on_dpp "correlation" dpp_name endpoints_only sft
    = (sft, Raise TypeError) /\
  perform_operation_dpp_to_dps "correlation" dpp_name endpoints_only sft
    = (sft, Raise TypeError).
Proof.
  intros Hkey.
  rewrite (perform_operation_on_dpp_run _ _ _ _ _ _ OPERATIONS_correlation Hkey).
  rewrite (perform_operation_dpp_to_dps_run _ _ _ _ _ _
             OPERATIONS_correlation Hkey).
  destruct (last (p :: s)) as [final|] eqn:Hlast.
  2:{ by apply last_None in Hlast. }
  destruct endpoints_only; cbn [collect].
  - unfold operate_on_endpoints, reduce_endpoints.
    rewrite (py_index_first (p :: s) p eq_refl), (py_index_last _ _ Hlast).
    done.
  - done.
Qed.

Lemma reducers_single :
  Forall (fun nf : string * (list fval -> result fval) =>
            forall x, nf.2 [x] = Ok x) reducers.
Proof.
  unfold reducers. repeat apply Forall_cons_2; try apply Forall_nil_2;
    intros x; cbn [snd]; try done.
  - unfold np_mean, np_sum. cbn [foldl length]. f_equal.
    rewrite fadd_0_l. apply fdiv_one.
  - unfold np_sum. cbn [foldl]. f_equal. apply fadd_0_l.
Qed.

Lemma reduce_single_point (f : list fval -> result fval) (val : list fval) :
  (forall x, f [x] = Ok x) ->
  reduce_points (def1 (fun a => squeeze <$> reduce_axis0 f a)) [val]
  = Ok (squeeze (A1 val)).
Proof.
  intros Hf. unfold reduce_points, np_asarray, def1.
  cbn [reduce_axis0]. unfold width. cbn [hd].
  rewrite (collect_map _ _ (fun j => nth j val NaN)).
  - by rewrite map_nth_seq.
  - intros j _. apply Hf.
Qed.

(** X17.  A streamline of a single point is reduced to the value of that
    point: with [endpoints_only=False] and any of 'mean', 'sum', 'min',
    'max', [perform_operation_dpp_to_dps] returns for such streamlines the
    vector of the point itself (a scalar when the vector has one entry). *)
Theorem perform_operation_dpp_to_dps_single_point (op_name : string)
    (f : list fval -> result fval) (dpp_name : string)
    (sft : StatefulTractogram) (vals : list (list fval)) :
  (op_name, f) ∈ reducers ->
  data_per_point sft !! dpp_name = Some (map (fun val => [val]) vals) ->
  perform_operation_dpp_to_dps op_name dpp_name false sft
  = (sft, Ok (map (fun val => squeeze (A1 val)) vals)).
Proof.
  intros Hin Hkey. destruct (reducer_lookup op_name f Hin) as [Hop _].
  pose proof reducers_single as Hsingle. rewrite Forall_forall in Hsingle.
  specialize (Hsingle _ Hin). cbn [snd] in Hsingle.
  rewrite (perform_operation_dpp_to_dps_run _ _ _ _ _ _ Hop Hkey).
  f_equal. clear Hkey. induction vals as [|val vals IH]; [done|].
  cbn [map collect]. rewrite (reduce_single_point f val Hsingle).
  cbn [mbind result_bind]. by rewrite IH.
Qed.

Lemma columns_total (f : list fval -> result fval) (d : nat)
    (s : list (list fval)) :
  total_on_values f -> s <> [] ->
  exists v, Forall2 (fun j x => f (column j s) = Ok x) (seq 0 d) v.
Proof.
  intros Hf Hs. induction (seq 0 d) as [|j js (v & Hv)]; [by exists []|].
  destruct (Hf (column j s)) as [x Hx].
  { unfold column. by destruct s. }
  exists (x :: v). by constructor.
Qed.

Lemma reduce_points_rows (f : list fval -> result fval) (p : list fval)
    (s : list (list fval)) :
  reduce_points (def1 (fun a => squeeze <$> reduce_axis0 f a)) (p :: s)
  = squeeze <$> (v ← collect (seq 0 (length p))
                       (fun j => f (column j (p :: s)));
                 Ok (A1 v)).
Proof. reflexivity. Qed.

(** X18.  With [endpoints_only=False] and one of 'mean', 'sum', 'min',
    'max', on streamlines that all have a point and whose vectors all have
    [d] entries, [perform_operation_dpp_to_dps] reduces every streamline
    column by column: it returns, squeezed, the [d] values the operator
    gives for the [d] columns (a scalar when [d] is one). *)
Theorem perform_operation_dpp_to_dps_columns (op_name : string)
    (f : list fval -> result fval) (dpp_name : string)
    (sft : StatefulTractogram) (seqs : list (list (list fval))) (d : nat) :
  (op_name, f) ∈ reducers ->
  data_per_point sft !! dpp_name = Some seqs ->
  Forall (fun s => s <> [] /\ Forall (fun p => length p = d) s) seqs ->
  exists out,
    perform_operation_dpp_to_dps op_name dpp_name false sft = (sft, Ok out) /\
    Forall2 (reduced_columns f d) seqs out.
Proof.
  intros Hin Hkey Hseqs. destruct (reducer_lookup op_name f Hin) as [Hop Hf].
  rewrite (perform_operation_dpp_to_dps_run _ _ _ _ _ _ Hop Hkey).
  clear Hkey.
  cut (exists out,
         collect seqs (reduce_points
           (def1 (fun a => squeeze <$> reduce_axis0 f a))) = Ok out /\
         Forall2 (reduced_columns f d) seqs out).
  { intros (out & -> & Hout). by exists out. }
  induction Hseqs as [|s seqs [Hs Hwidth] _ (out & Hrun & Hout)].
  { exists []. split; [done|constructor]. }
  destruct (columns_total f d s Hf Hs) as [v Hv].
  exists (squeeze (A1 v) :: out). split.
  - destruct s as [|p s]; [done|].
    cbn [collect]. rewrite reduce_points_rows.
    rewrite (Forall_inv Hwidth).
    rewrite (collect_Forall2 _ _ _ Hv). cbn [fmap result_fmap mbind result_bind].
    by rewrite Hrun.
  - constructor; [by exists v|done].
Qed.

(** ** The range of the correlation *)

Lemma clip_coefficient (x : fval) : coefficient (clip x).
Proof.
  unfold coefficient, clip. destruct x as [|[]|q]; cbn [fmax fleb].
  - by left.
  - right. exists (-1)%Q. split; [reflexivity|]. split; discriminate.
  - right. exists 1%Q. split; [reflexivity|]. split; discriminate.
  - destruct (Qle_bool q (-1)) eqn:Hlow.
    + right. exists (-1)%Q. split; [reflexivity|]. split; discriminate.
    + assert (Hq : (-1 <= q)%Q).
      { apply Qnot_lt_le. intros Hlt. apply Qlt_le_weak in Hlt.
        apply Qle_bool_iff in Hlt. congruence. }
      cbn [fmin fleb]. destruct (Qle_bool q 1) eqn:Hhigh.
      * right. exists q. split; [done|]. split; [done|].
        by apply Qle_bool_iff.
      * right. exists 1%Q. split; [done|]. split; discriminate.
Qed.

Lemma centred_product_zero (q r : Q) :
  Qzero (0 + (q - (0 + q) / inject_Z 1) * (r - (0 + r) / inject_Z 1)) = true.
Proof. unfold Qzero. apply Qeq_bool_iff. unfold inject_Z. field. Qed.

Lemma covariance_short (u v : list fval) :
  (length u <= 1)%nat -> length u = length v -> covariance u v = NaN.
Proof.
  intros Hshort Hlen. destruct u as [|a [|a' u]]; simpl in Hshort; [| |lia].
  - by destruct v.
  - destruct v as [|b [|b' v]]; try done.
    unfold covariance, centre, dot, np_mean, np_sum.
    cbn [length map zip_with foldl]. rewrite decide_True by done.
    destruct a as [|[]|q], b as [|[]|r]; try reflexivity.
    cbn [fadd fdiv fsub of_nat].
    change (inject_Z (Z.of_nat 1)) with (inject_Z 1).
    change (Qzero (inject_Z 1)) with false. cbn [fmul].
    by rewrite centred_product_zero.
Qed.

Lemma pearson_short (u v : list fval) :
  (length u <= 1)%nat -> length u = length v -> pearson u v = NaN.
Proof.
  intros Hshort Hlen. unfold pearson.
  by rewrite (covariance_short u v Hshort Hlen).
Qed.

(** X19.  For 'correlation', on streamlines whose first and last vectors
    have the same length, every value that
    [perform_pairwise_streamline_operation_on_endpoints] returns is NaN or
    lies within [-1, 1]; it is NaN for every streamline whose vectors have
    at most one entry (scalar data_per_point). *)
Theorem pairwise_correlation_range (dpp_name : string)
    (sft : StatefulTractogram) (seqs : list (list (list fval))) :
  data_per_point sft !! dpp_name = Some seqs ->
  Forall (fun s : list (list fval) =>
            exists first final,
              s !! 0%nat = Some first /\ last s = Some final /\
              length first = length final) seqs ->
  exists out,
    perform_pairwise_streamline_operation_on_endpoints "correlation"
      dpp_name sft = (sft, Ok out) /\
    Forall2 (fun (s : list (list fval)) x =>
               coefficient x /\
               (forall first, s !! 0%nat = Some first ->
                  (length first <= 1)%nat -> x = NaN)) seqs out.
Proof.
  intros Hkey Hends.
  rewrite (perform_pairwise_run _ _ _ _ seqs OPERATIONS_correlation Hkey).
  clear Hkey.
  cut (exists out,
         collect seqs (pairwise_on_endpoints (def2 stream_correlation)) = Ok out /\
         Forall2 (fun (s : list (list fval)) x =>
               coefficient x /\
               (forall first, s !! 0%nat = Some first ->
                  (length first <= 1)%nat -> x = NaN)) seqs out).
  { intros (out & -> & Hout). by exists out. }
  induction Hends as [|s seqs (first & final & Hf & Hl & Hlen) _ (out & Hrun & Hout)].
  { exists []. split; [done|constructor]. }
  exists (pearson first final :: out). split.
  - cbn [collect]. rewrite (pairwise_correlation s first final Hf Hl Hlen).
    cbn [mbind result_bind]. by rewrite Hrun.
  - constructor; [|done]. split; [apply clip_coefficient|].
    intros first' Hf' Hshort. rewrite Hf in Hf'. injection Hf' as <-.
    by apply pearson_short.
Qed.

(** X20.  The endpoints of a streamline without point.  When the first
    entry of the data_per_point key is empty, [perform_operation_on_dpp]
    and [perform_operation_dpp_to_dps] with [endpoints_only=True], and
    [perform_pairwise_streamline_operation_on_endpoints], raise IndexError
    for every name of the registry: the first point is read before the
    operator is called.  The tractogram is untouched. *)
Theorem perform_empty_streamline (op_name dpp_name : string)
    (sft : StatefulTractogram) (rest : list (list (list fval))) :
  op_name ∈ operator_names ->
  data_per_point sft !! dpp_name = Some ([] :: rest) ->
  Forall (fun r => r = (sft, Raise IndexError))
         (perform_outcomes op_name dpp_name true sft).
Proof.
  intros Hin Hkey. destruct (OPERATIONS_known op_name Hin) as [call_op Hop].
  unfold perform_outcomes.
  rewrite (perform_operation_on_dpp_run _ _ _ _ _ _ Hop Hkey).
  rewrite (perform_operation_dpp_to_dps_run _ _ _ _ _ _ Hop Hkey).
  rewrite (perform_pairwise_run _ _ _ _ _ Hop Hkey).
  repeat apply Forall_cons_2; try apply Forall_nil_2; reflexivity.
Qed.

End Engine.

(** ** The claims at sample inputs *)

Lemma sft_len_valid : dps_valid sft_len.
Proof.
  intros key vals H. unfold sft_len_taken, sft_len in H. simpl in H.
  apply lookup_singleton_Some in H as [_ <-]. reflexivity.
Defined.

Lemma sft_len_taken_valid : dps_valid sft_len_taken.
Proof.
  intros key vals H. unfold sft_len_taken, sft_len in H. simpl in H.
  apply lookup_singleton_Some in H as [_ <-]. reflexivity.
Defined.

(** C1, as first stated, fails on a tractogram whose data_per_point already
    has the key: the call (overwrite left to its default) raises the
    key-collision error and the key stays in data_per_streamline. *)
Lemma convert_dps_to_dpp_key_taken :
  dps_valid sft_len_taken /\
  is_Some (data_per_streamline sft_len_taken !! "len") /\
  convert_dps_to_dpp ["len"] false sft_len_taken
    = (sft_len_taken, Raise (dpp_already_existed "len")) /\
  ~ converted sft_len_taken "len"
      (fst (convert_dps_to_dpp ["len"] false sft_len_taken)).
Proof.
  split; [apply sft_len_taken_valid|].
  split; [by eexists|].
  assert (Hrun : convert_dps_to_dpp ["len"] false sft_len_taken
                 = (sft_len_taken, Raise (dpp_already_existed "len"))).
  { rewrite convert_dps_to_dpp_run. simpl. unfold mbind at 1, M_bind at 1.
    by erewrite convert_key_collision. }
  split; [exact Hrun|].
  rewrite Hrun. simpl. intros (vals & seqs & _ & _ & Hgone & _).
  discriminate Hgone.
Qed.

(** C1 (amended) at the sample of the specification. *)
Lemma convert_dps_to_dpp_broadcasts_witness :
  exists T',
    convert_dps_to_dpp ["len"] false sft_len = (T', Ok T') /\
    converted sft_len "len" T' /\
    streamlines T' = streamlines sft_len.
Proof.
  apply convert_dps_to_dpp_broadcasts.
  - apply sft_len_valid.
  - by eexists.
  - left. reflexivity.
Defined.

(** The scenario of the specification: lengths 3 and 5. *)
Example convert_dps_to_dpp_len :
  convert_dps_to_dpp ["len"] false sft_len
  = (sft_len_converted, Ok sft_len_converted).
Proof. reflexivity. Qed.

(** C2, as first stated, fails when a present key is listed before the
    absent one: the present key has been converted when the error is
    raised. *)
Lemma convert_dps_to_dpp_partial :
  convert_dps_to_dpp ["len"; "missing_key"] false sft_len
    = (sft_len_converted, Raise (dps_not_found "missing_key")) /\
  data_per_point sft_len_converted !! "len" <> data_per_point sft_len !! "len" /\
  ~ validates_up_front sft_len ["len"; "missing_key"] false.
Proof.
  assert (Hrun : convert_dps_to_dpp ["len"; "missing_key"] false sft_len
                 = (sft_len_converted, Raise (dps_not_found "missing_key")))
    by reflexivity.
  split; [exact Hrun|]. split; [discriminate|].
  intros H. destruct H as [key Hkey].
  { exists "missing_key". split; [|reflexivity].
    apply elem_of_cons. right. apply elem_of_cons. by left. }
  rewrite Hrun in Hkey.
  apply (f_equal (fun r => data_per_point (fst r) !! "len")) in Hkey.
  discriminate Hkey.
Qed.

(** C2 at the sample: "len" is converted, then "missing_key" is missed; and
    "missing_key" first. *)
Lemma convert_dps_to_dpp_missing_key_witness :
  convert_dps_to_dpp (["len"] ++ "missing_key" :: ["other"]) false sft_len
    = (sft_len_converted, Raise (dps_not_found "missing_key"))
  /\
  convert_dps_to_dpp ("missing_key" :: ["len"]) false sft_len
    = (sft_len, Raise (dps_not_found "missing_key")).
Proof.
  destruct (convert_dps_to_dpp_missing_key false) as [Hlater Hfirst].
  split.
  - apply (Hlater ["len"] ["other"] "missing_key" sft_len sft_len_converted);
      reflexivity.
  - apply (Hfirst ["len"] "missing_key" sft_len). reflexivity.
Defined.

(** C7 at the sample whose data_per_point already has "len". *)
Lemma convert_dps_to_dpp_collision_witness :
  convert_dps_to_dpp ([] ++ "len" :: ["other"]) false sft_len_taken
    = (sft_len_taken, Raise (dpp_already_existed "len"))
  /\
  exists T2,
    convert_dps_to_dpp ([] ++ ["len"]) true sft_len_taken = (T2, Ok T2) /\
    converted sft_len_taken "len" T2 /\
    streamlines T2 = streamlines sft_len_taken.
Proof.
  split.
  - apply (proj1 (convert_dps_to_dpp_collision [] ["other"] "len"
                    sft_len_taken sft_len_taken [[num 3]; [num 5]]
                    [ replicate 3 [num 0]; replicate 5 [num 0] ]
                    eq_refl eq_refl)).
    reflexivity.
  - apply (proj2 (convert_dps_to_dpp_collision [] [] "len"
                    sft_len_taken sft_len_taken [[num 3]; [num 5]]
                    [ replicate 3 [num 0]; replicate 5 [num 0] ]
                    eq_refl eq_refl)).
    + reflexivity.
    + apply sft_len_taken_valid.
Defined.

(** With the flag, the entry of zeros that "len" had in data_per_point is
    replaced by the lengths 3 and 5, once per point. *)
Example convert_dps_to_dpp_overwrites :
  data_per_point
    (fst (convert_dps_to_dpp ["len"] true sft_len_taken)) !! "len"
  = Some [ [[num 3]; [num 3]; [num 3]];
           [[num 5]; [num 5]; [num 5]; [num 5]; [num 5]] ].
Proof. reflexivity. Qed.

Lemma volume_4d_answers (sft : StatefulTractogram) (p : point) :
  volume_answers (sft, volume_4d) 2 p [Num (px p); Num (py p + pz p)].
Proof.
  exists (A1 [Num (px p); Num (py p + pz p)]). split; reflexivity.
Defined.


(** The two streamlines of the sample on a volume of two channels. *)
Example project_map_to_streamlines_two_channels :
  snd (project_map_to_streamlines true (sft_len, volume_4d))
  = Ok [ [ [num 0; Num (0 + 0)]; [NaN; NaN]; [num 2; Num (0 + 0)] ];
         [ [num 0; Num (1 + 0)]; [NaN; NaN]; [NaN; NaN]; [NaN; NaN];
           [num 3; Num (2 + 0)] ] ].
Proof. reflexivity. Qed.

Lemma sft_metric_visits_once :
  NoDup (visited_voxels
           (to_corner keep_origin (to_vox keep_point sft_metric)) false).
Proof. apply (bool_decide_unpack _). vm_compute. reflexivity. Defined.

(** C3, as first stated, fails in endpoints-only mode on a streamline of
    one point: the grid holds one streamline point, in one cell, but the
    loops visit it as index 0 and as index -1; the sum is twice its value
    and the mean is its value. *)
Lemma project_dpp_to_map_one_point_two_visits :
  one_point_per_voxel
    (to_corner keep_origin (to_vox keep_point sft_single_point)) true /\
  (exists summed averaged,
     project_dpp_to_map keep_point keep_origin "metric" true true
         sft_single_point
       = (to_corner keep_origin (to_vox keep_point sft_single_point),
          Ok summed) /\
     project_dpp_to_map keep_point keep_origin "metric" false true
         sft_single_point
       = (to_corner keep_origin (to_vox keep_point sft_single_point),
          Ok averaged) /\
     g_data summed !! 7%nat = Some (Num 10) /\
     g_data averaged !! 7%nat = Some (Num (10 # 2))) /\
  ~ sum_lines_indifferent keep_point keep_origin "metric" true
      sft_single_point.
Proof.
  assert (Hone : one_point_per_voxel
            (to_corner keep_origin (to_vox keep_point sft_single_point)) true).
  { apply (bool_decide_unpack _). vm_compute. reflexivity. }
  split; [exact Hone|]. split.
  - eexists _, _. split; [vm_compute; reflexivity|].
    split; [vm_compute; reflexivity|]. split; reflexivity.
  - intros H. specialize (H Hone).
    apply (f_equal (fun r => match snd r with
                             | Ok g => g_data g !! 7%nat
                             | Raise _ => None
                             end)) in H.
    discriminate H.
Qed.

(** C3 at the sample whose eight points fall in eight cells. *)
Lemma project_dpp_to_map_sum_lines_witness :
  project_dpp_to_map keep_point keep_origin "metric" false false sft_metric
  = project_dpp_to_map keep_point keep_origin "metric" true false sft_metric
  /\
  exists the_map,
    project_dpp_to_map keep_point keep_origin "metric" false false sft_metric
    = (to_corner keep_origin (to_vox keep_point sft_metric), Ok the_map) /\
    g_data the_map !! 1%nat = Some (Num 0).
Proof.
  pose proof (project_dpp_to_map_sum_lines keep_point keep_origin
                "metric" false sft_metric) as [Hsame Hzero].
  split.
  - apply Hsame. apply sft_metric_visits_once.
  - eexists. split; [vm_compute; reflexivity|].
    eapply Hzero.
    + vm_compute; reflexivity.
    + vm_compute; lia.
    + apply (bool_decide_unpack _). vm_compute. reflexivity.
Defined.

(** A streamline of one point in endpoints-only mode: its point is selected
    twice, the sum is twice its value and the mean is its value. *)
Example project_dpp_to_map_single_point :
  let sft := mk_sft [[pt 1 1 1]] ∅ {[ "metric" := [[[num 5]]] ]}
                    VOX TRACKVIS (2, 2, 2)%nat in
  let zero := Num 0 in
  snd (project_dpp_to_map keep_point keep_origin "metric" true true sft)
    = Ok (mk_grid (2, 2, 2)%nat
            [zero; zero; zero; zero; zero; zero; zero; Num 10]) /\
  snd (project_dpp_to_map keep_point keep_origin "metric" false true sft)
    = Ok (mk_grid (2, 2, 2)%nat
            [zero; zero; zero; zero; zero; zero; zero; Num (10 # 2)]).
Proof. split; reflexivity. Qed.

(** C10, as first stated, fails on a tractogram without streamlines: no
    point is visited, the key is never read, and the call returns the map
    of zeros; the tractogram has been converted all the same. *)
Lemma project_dpp_to_map_no_streamline :
  data_per_point sft_empty !! "metric" = None /\
  project_dpp_to_map keep_point keep_origin "metric" false false sft_empty
    = (to_corner keep_origin (to_vox keep_point sft_empty),
       Ok (np_zeros (2, 2, 2)%nat)) /\
  space (to_corner keep_origin (to_vox keep_point sft_empty)) <> space sft_empty /\
  ~ raises_missing_key keep_point keep_origin "metric" false false sft_empty.
Proof.
  split; [reflexivity|].
  assert (Hrun :
    project_dpp_to_map keep_point keep_origin "metric" false false sft_empty
    = (to_corner keep_origin (to_vox keep_point sft_empty),
       Ok (np_zeros (2, 2, 2)%nat))) by reflexivity.
  split; [exact Hrun|]. split; [discriminate|].
  intros H. destruct H as [sft' H]; [reflexivity|].
  rewrite Hrun in H. discriminate H.
Qed.

(** C10 (amended) at a sample that starts in voxel-centre convention and
    holds another key, at a sample without any data_per_point key, and at
    the sample without streamlines. *)
Lemma project_dpp_to_map_missing_key_witness :
  project_dpp_to_map keep_point keep_origin "nokey" false false sft_metric
  = (to_corner keep_origin (to_vox keep_point sft_metric),
     Raise (KeyError "nokey"))
  /\ origin (to_corner keep_origin (to_vox keep_point sft_metric)) = TRACKVIS
  /\ origin sft_metric = NIFTI
  /\ (exists msg,
        project_dpp_to_map keep_point keep_origin "nokey" false false sft_len
        = (to_corner keep_origin (to_vox keep_point sft_len),
           Raise (ValueError msg)))
  /\ project_dpp_to_map keep_point keep_origin "nokey" true false sft_empty
      = (to_corner keep_origin (to_vox keep_point sft_empty),
         Ok (np_zeros (2, 2, 2)%nat)).
Proof.
  pose proof (project_dpp_to_map_missing_key keep_point keep_origin
                "nokey" false false sft_metric) as (_ & _ & Horigin & Hraise).
  destruct (Hraise eq_refl) as (_ & Hfirst & _).
  split; [|split; [exact Horigin|split; [reflexivity|split]]].
  - apply Hfirst; [exists 0%nat; reflexivity|].
    intros Hdpp.
    apply (f_equal (fun m : gmap string (list (list (list fval))) =>
                      m !! "metric")) in Hdpp.
    discriminate Hdpp.
  - pose proof (project_dpp_to_map_missing_key keep_point keep_origin
                  "nokey" false false sft_len) as (_ & _ & _ & Hlen).
    destruct (Hlen eq_refl) as (_ & Hvalue & _).
    apply Hvalue; [exists 0%nat; reflexivity|reflexivity].
  - pose proof (project_dpp_to_map_missing_key keep_point keep_origin
                  "nokey" true false sft_empty) as (_ & _ & _ & Hempty).
    destruct (Hempty eq_refl) as (_ & _ & Hzeros).
    apply Hzeros. reflexivity.
Defined.

(** C5 at the values 1, 2, 3, 10. *)
Lemma perform_operation_dpp_to_dps_endpoints_witness :
  perform_operation_dpp_to_dps sqrt_floor "mean" "metric" true sft_skewed
  = (sft_skewed,
     collect [ [[num 1]; [num 2]; [num 3]; [num 10]] ]
             (fun s => def1 stream_mean [A1 (endpoints_concat s)])).
Proof.
  apply (proj1 (perform_operation_dpp_to_dps_endpoints sqrt_floor)
           "mean" (def1 stream_mean) "metric" sft_skewed).
  - apply OPERATIONS_mean.
  - reflexivity.
  - apply Forall_cons_2; [discriminate|apply Forall_nil_2].
Defined.

Lemma sqrt_floor_one (q : Q) : (q == 1)%Q -> (sqrt_floor q == 1)%Q.
Proof.
  destruct q as [n d]. unfold Qeq, sqrt_floor. simpl. intros H.
  assert (Hn : n = Z.pos d) by lia. subst n. simpl. lia.
Qed.

(** C6, as first stated, fails on a single row of two values: the mean
    along axis 0 is the row itself, an array of length two. *)
Lemma stream_mean_single_row :
  stream_mean (A2 [[num 1; num 2]]) = Ok (A1 [Num 1; Num 2]) /\
  ~ single_row_gives_scalar sqrt_floor "mean".
Proof.
  split; [reflexivity|]. intros H.
  destruct (H (def1 stream_mean) [num 1; num 2]) as [x Hx];
    [apply OPERATIONS_mean|].
  discriminate Hx.
Qed.

(** C6 (amended) with the sample square root. *)
Lemma operations_registry_witness :
  dom (OPERATIONS sqrt_floor)
    = {[ "mean"; "sum"; "min"; "max"; "correlation" ]} /\
  exists r x,
    stream_correlation sqrt_floor
      (A1 [num 1; num 2; num 3]) (A1 [num 1; num 2; num 3]) = Ok r /\
    getitem2 r 0 1 = Ok x /\ feq x (num 1).
Proof.
  pose proof (operations_registry sqrt_floor sqrt_floor_one)
    as (Hdom & _ & _ & _ & _ & _ & _ & _ & _ & Hcorr).
  split; [exact Hdom|exact Hcorr].
Defined.




(** The correlation of the endpoints of a streamline whose per-point
    vectors are [1, 2, 3] at both ends. *)
Example pairwise_correlation_vectors :
  exists x,
    perform_pairwise_streamline_operation_on_endpoints sqrt_floor
      "correlation" "metric" sft_vectors = (sft_vectors, Ok [x]) /\
    feq x (num 1).
Proof. eexists. split; [vm_compute; reflexivity|reflexivity]. Qed.

(** ** The further properties at sample inputs *)

Lemma sft_len_dpp_valid : dpp_valid sft_len.
Proof. intros key seqs H. unfold sft_len in H. simpl in H. done. Defined.

Lemma sft_len_streamlines_have_points :
  Forall (fun s : streamline => s <> []) (streamlines sft_len).
Proof.
  apply Forall_cons_2; [discriminate|].
  apply Forall_cons_2; [discriminate|apply Forall_nil_2].
Defined.

(** X2 at the sample, on a list whose second key is missing. *)
Lemma convert_dps_to_dpp_valid_witness :
  dps_valid (fst (convert_dps_to_dpp ["len"; "missing_key"] false sft_len)) /\
  dpp_valid (fst (convert_dps_to_dpp ["len"; "missing_key"] false sft_len)).
Proof.
  apply convert_dps_to_dpp_valid.
  split; [apply sft_len_valid|apply sft_len_dpp_valid].
Defined.

Lemma sft_two_keys_valid : dps_valid sft_two_keys.
Proof.
  intros key vals H. unfold sft_two_keys in H. simpl in H.
  apply lookup_insert_Some in H as [[_ <-]|[_ H]]; [reflexivity|].
  apply lookup_singleton_Some in H as [_ <-]. reflexivity.
Defined.

(** X3 at a sample with two data_per_streamline keys, both listed. *)
Lemma convert_dps_to_dpp_all_witness :
  exists T',
    convert_dps_to_dpp ["len"; "side"] false sft_two_keys = (T', Ok T') /\
    streamlines T' = streamlines sft_two_keys /\
    forall k, k ∈ ["len"; "side"] -> converted sft_two_keys k T'.
Proof.
  apply convert_dps_to_dpp_all.
  - apply (bool_decide_unpack _). vm_compute. reflexivity.
  - apply sft_two_keys_valid.
  - intros k Hk. apply elem_of_cons in Hk as [->|Hk]; [by eexists|].
    apply list_elem_of_singleton in Hk as ->. by eexists.
  - right. intros k Hk. reflexivity.
Defined.

(** X4 at the sample. *)
Lemma convert_dps_to_dpp_returns_witness :
  NoDup ["len"] /\
  (forall k, k ∈ ["len"] -> is_Some (data_per_streamline sft_len !! k)) /\
  (false = false -> forall k, k ∈ ["len"] ->
     data_per_point sft_len !! k = None).
Proof.
  apply (convert_dps_to_dpp_returns ["len"] false sft_len
           sft_len_converted sft_len_converted).
  reflexivity.
Defined.

(** X5 at the sample: the lengths 3 and 5 come back. *)
Lemma convert_then_reduce_witness :
  perform_operation_dpp_to_dps sqrt_floor "min" "len" false
    (fst (convert_dps_to_dpp ["len"] false sft_len))
  = (fst (convert_dps_to_dpp ["len"] false sft_len),
     Ok (map (fun val => squeeze (A1 val)) [[num 3]; [num 5]])).
Proof.
  apply (convert_then_reduce sqrt_floor sft_len "len" false
           [[num 3]; [num 5]] "min").
  - apply sft_len_valid.
  - reflexivity.
  - left. reflexivity.
  - apply sft_len_streamlines_have_points.
  - left. reflexivity.
Defined.

Lemma two_channels_sampled :
  sampled_everywhere (sft_len, volume_4d) false 2 two_channels.
Proof.
  unfold sampled_everywhere, two_channels. simpl.
  repeat first [apply Forall2_nil_2 | apply Forall2_cons_2];
    (eexists; split; [reflexivity|split; reflexivity]).
Defined.

(** X6 at the two sample streamlines, on the volume of two channels. *)
Lemma project_map_to_streamlines_all_points_witness :
  project_map_to_streamlines false (sft_len, volume_4d)
  = ((sft_len, volume_4d), Ok two_channels).
Proof.
  apply (project_map_to_streamlines_all_points (sft_len, volume_4d) false).
  apply two_channels_sampled.
Defined.

(** X7 at a tractogram whose second streamline has no point. *)
Lemma project_map_to_streamlines_empty_streamline_witness :
  project_map_to_streamlines true (sft_gap, volume_4d)
  = ((sft_gap, volume_4d), Raise IndexError).
Proof.
  apply (project_map_to_streamlines_empty_streamline (sft_gap, volume_4d)
           [ [pt 0 0 0; pt 1 0 0] ] [ [pt 1 1 1] ]).
  - reflexivity.
  - apply Forall_cons_2; [|apply Forall_nil_2].
    exists (pt 0 0 0), (pt 1 0 0). eexists _, _.
    split; [reflexivity|]. split; [reflexivity|].
    split; apply volume_4d_answers.
Defined.

(** X8 at the two sample streamlines. *)
Lemma project_map_to_streamlines_modes_witness :
  project_map_to_streamlines false (sft_len, volume_4d)
    = ((sft_len, volume_4d), Ok two_channels) /\
  exists out_e,
    project_map_to_streamlines true (sft_len, volume_4d)
      = ((sft_len, volume_4d), Ok out_e) /\
    Forall2 (agrees_at_endpoints 2) two_channels out_e.
Proof.
  apply (project_map_to_streamlines_modes (sft_len, volume_4d) false).
  - apply two_channels_sampled.
  - apply sft_len_streamlines_have_points.
Defined.

Lemma log_metric_recorded :
  recorded (to_corner keep_origin (to_vox keep_point sft_metric))
           "metric" false log_metric.
Proof.
  unfold recorded, log_metric.
  change (selected (to_corner keep_origin (to_vox keep_point sft_metric)) false)
    with [ (0%nat, 0%Z); (0%nat, 1%Z); (0%nat, 2%Z);
           (1%nat, 0%Z); (1%nat, 1%Z); (1%nat, 2%Z); (1%nat, 3%Z);
           (1%nat, 4%Z) ].
  repeat first [apply Forall2_nil_2 | apply Forall2_cons_2];
    (split; reflexivity).
Defined.

(** X9 at the sample of eight points. *)
Lemma project_dpp_to_map_cells_witness :
  project_dpp_to_map keep_point keep_origin "metric" true false sft_metric
    = (to_corner keep_origin (to_vox keep_point sft_metric),
       Ok (grid_of (dimensions sft_metric)
             (fun o => np_sum (cell_values log_metric o)))) /\
  project_dpp_to_map keep_point keep_origin "metric" false false sft_metric
    = (to_corner keep_origin (to_vox keep_point sft_metric),
       Ok (grid_of (dimensions sft_metric)
             (fun o => cell_mean (cell_values log_metric o)))).
Proof.
  apply (project_dpp_to_map_cells keep_point keep_origin "metric" false
           sft_metric log_metric).
  apply log_metric_recorded.
Defined.


(** X11 at the sample whose points carry vectors of three entries. *)
Lemma project_dpp_to_map_vector_witness :
  project_dpp_to_map keep_point keep_origin "metric" false false sft_vectors
  = (to_corner keep_origin (to_vox keep_point sft_vectors),
     Raise not_a_scalar).
Proof.
  apply (project_dpp_to_map_vector keep_point keep_origin "metric" false false
           sft_vectors 0 0 [(0%nat, 1%Z); (0%nat, 2%Z)]
           [ [[num 1; num 2; num 3]; [num 0; num 0; num 0];
              [num 1; num 2; num 3]] ]
           [[num 1; num 2; num 3]; [num 0; num 0; num 0];
            [num 1; num 2; num 3]]
           [num 1; num 2; num 3]).
  - reflexivity.
  - by eexists.
  - reflexivity.
  - reflexivity.
  - reflexivity.
  - simpl. lia.
Defined.

(** X12 at a point of value 5 in the last cell of a 2x2x2 grid. *)
Lemma project_dpp_to_map_single_point_twice_witness :
  project_dpp_to_map keep_point keep_origin "metric" true true
      sft_single_point
    = (to_corner keep_origin (to_vox keep_point sft_single_point),
       Ok (one_cell (2, 2, 2)%nat 7 (fadd (num 5) (num 5)))) /\
  project_dpp_to_map keep_point keep_origin "metric" true false
      sft_single_point
    = (to_corner keep_origin (to_vox keep_point sft_single_point),
       Ok (one_cell (2, 2, 2)%nat 7 (num 5))).
Proof.
  apply (project_dpp_to_map_single_point_twice keep_point keep_origin
           "metric" sft_single_point (pt 1 1 1) (num 5) 7);
    reflexivity.
Defined.

(** X13 at a name outside the registry, at 'mean' with an absent key
    beside another key, and at 'mean' on a tractogram without
    data_per_point key. *)
Lemma perform_lookup_errors_witness :
  Forall (fun r => r = (sft_skewed, Raise (KeyError "median")))
         (perform_outcomes sqrt_floor "median" "metric" false sft_skewed) /\
  Forall (fun r => r = (sft_skewed, Raise (KeyError "nokey")))
         (perform_outcomes sqrt_floor "mean" "nokey" true sft_skewed) /\
  (perform_operation_on_dpp sqrt_floor "mean" "metric" false sft_len
     = (sft_len, Ok []) /\
   perform_operation_dpp_to_dps sqrt_floor "mean" "metric" false sft_len
     = (sft_len, Ok []) /\
   perform_pairwise_streamline_operation_on_endpoints sqrt_floor
     "mean" "metric" sft_len = (sft_len, Ok [])).
Proof.
  split; [|split].
  - apply (proj1 (perform_lookup_errors sqrt_floor "median" "metric" false
                    sft_skewed)).
    unfold operator_names. intros H.
    repeat (apply elem_of_cons in H as [H|H]; [discriminate H|]).
    by apply elem_of_nil in H.
  - apply (proj1 (proj2 (perform_lookup_errors sqrt_floor "mean" "nokey" true
                           sft_skewed))).
    + apply elem_of_cons. by left.
    + reflexivity.
    + intros Hdpp.
      apply (f_equal (fun m : gmap string (list (list (list fval))) =>
                        m !! "metric")) in Hdpp.
      discriminate Hdpp.
  - apply (proj2 (proj2 (perform_lookup_errors sqrt_floor "mean" "metric"
                           false sft_len))).
    + apply elem_of_cons. by left.
    + reflexivity.
Defined.

Lemma max_is_a_reducer : ("max", np_max) ∈ reducers.
Proof.
  unfold reducers. do 3 (apply elem_of_cons; right).
  apply elem_of_cons. by left.
Defined.

Lemma sft_vectors_have_entries :
  Forall (Forall (fun p : list fval => p <> []))
    [ [[num 1; num 2; num 3]; [num 0; num 0; num 0]; [num 1; num 2; num 3]] ].
Proof.
  apply Forall_cons_2; [|apply Forall_nil_2].
  repeat first [apply Forall_nil_2 | apply Forall_cons_2]; discriminate.
Defined.

(** X14 with 'max' at the sample of vectors. *)
Lemma perform_operation_on_dpp_points_witness :
  exists out,
    perform_operation_on_dpp sqrt_floor "max" "metric" false sft_vectors
      = (sft_vectors, Ok out) /\
    Forall2 (Forall2 (reduced_row np_max))
      [ [[num 1; num 2; num 3]; [num 0; num 0; num 0]; [num 1; num 2; num 3]] ]
      out.
Proof.
  apply (perform_operation_on_dpp_points sqrt_floor "max" np_max "metric"
           sft_vectors).
  - apply max_is_a_reducer.
  - reflexivity.
  - apply sft_vectors_have_entries.
Defined.

(** X15 with 'max' at the sample of vectors. *)
Lemma perform_operation_on_dpp_modes_witness :
  exists out out_e,
    perform_operation_on_dpp sqrt_floor "max" "metric" false sft_vectors
      = (sft_vectors, Ok out) /\
    perform_operation_on_dpp sqrt_floor "max" "metric" true sft_vectors
      = (sft_vectors, Ok out_e) /\
    Forall2 (agrees_at_endpoints 1) out out_e.
Proof.
  apply (perform_operation_on_dpp_modes sqrt_floor "max" np_max "metric"
           sft_vectors
           [ [[num 1; num 2; num 3]; [num 0; num 0; num 0];
              [num 1; num 2; num 3]] ]).
  - apply max_is_a_reducer.
  - reflexivity.
  - apply Forall_cons_2; [discriminate|apply Forall_nil_2].
  - apply sft_vectors_have_entries.
Defined.

(** X16 at the values 1, 2, 3, 10. *)
Lemma perform_operation_correlation_witness :
  perform_operation_on_dpp sqrt_floor "correlation" "metric" true sft_skewed
    = (sft_skewed, Raise TypeError) /\
  perform_operation_dpp_to_dps sqrt_floor "correlation" "metric" true
      sft_skewed
    = (sft_skewed, Raise TypeError).
Proof.
  apply (perform_operation_correlation sqrt_floor "metric" true sft_skewed
           [num 1] [[num 2]; [num 3]; [num 10]] []).
  reflexivity.
Defined.

(** X17 with 'mean' at the streamline of one point. *)
Lemma perform_operation_dpp_to_dps_single_point_witness :
  perform_operation_dpp_to_dps sqrt_floor "mean" "metric" false
    sft_single_point
  = (sft_single_point, Ok (map (fun val => squeeze (A1 val)) [[num 5]])).
Proof.
  apply (perform_operation_dpp_to_dps_single_point sqrt_floor "mean"
           (fun v => Ok (np_mean v)) "metric" sft_single_point [[num 5]]).
  - apply elem_of_cons. by left.
  - reflexivity.
Defined.

(** X19 at the values 1, 2, 3, 10: the correlation of two scalars is
    NaN. *)
Lemma pairwise_correlation_range_witness :
  exists out,
    perform_pairwise_streamline_operation_on_endpoints sqrt_floor
      "correlation" "metric" sft_skewed = (sft_skewed, Ok out) /\
    Forall2 (fun (s : list (list fval)) x =>
               coefficient x /\
               (forall first, s !! 0%nat = Some first ->
                  (length first <= 1)%nat -> x = NaN))
            [ [[num 1]; [num 2]; [num 3]; [num 10]] ] out.
Proof.
  apply (pairwise_correlation_range sqrt_floor "metric" sft_skewed).
  - reflexivity.
  - apply Forall_cons_2; [|apply Forall_nil_2].
    exists [num 1], [num 10]. split; [reflexivity|]. split; reflexivity.
Defined.

(** X18 with 'max' at the sample of vectors of three entries. *)
Lemma perform_operation_dpp_to_dps_columns_witness :
  exists out,
    perform_operation_dpp_to_dps sqrt_floor "max" "metric" false sft_vectors
      = (sft_vectors, Ok out) /\
    Forall2 (reduced_columns np_max 3)
      [ [[num 1; num 2; num 3]; [num 0; num 0; num 0]; [num 1; num 2; num 3]] ]
      out.
Proof.
  apply (perform_operation_dpp_to_dps_columns sqrt_floor "max" np_max
           "metric" sft_vectors).
  - apply max_is_a_reducer.
  - reflexivity.
  - apply Forall_cons_2; [|apply Forall_nil_2].
    split; [discriminate|].
    repeat first [apply Forall_nil_2 | apply Forall_cons_2]; reflexivity.
Defined.

(** X20 with 'sum' at a data_per_point entry whose first streamline has no
    value. *)
Lemma perform_empty_streamline_witness :
  Forall (fun r => r = (sft_hollow, Raise IndexError))
         (perform_outcomes sqrt_floor "sum" "metric" true sft_hollow).
Proof.
  apply (perform_empty_streamline sqrt_floor "sum" "metric" sft_hollow
           [ [[num 1]] ]).
  - apply elem_of_cons. right. apply elem_of_cons. by left.
  - reflexivity.
Defined.
